(** * analyze_repo.py: repository statistics

    A shallow embedding of [src/analyze_repo.py] and the properties of its
    scanner ([get_repo_stats]), size formatter ([format_size]), report
    writers ([save_report], [save_json_report]) and entry point ([main]).

    Conventions of the model.
    - Python [int] is [Z]; Python [str] is [string], a string of bytes
      (UTF-8).  [Str.lower] is [str.lower] on ASCII text, where only the
      letters [A] to [Z] change; on other text [str.lower] follows the
      Unicode tables, which are not modelled.  The scanner is modelled
      with [Str.lower]: its categories are those of the program for the
      trees whose file names are ASCII ([ascii_names]), and a property that
      depends on them says so.  The rule that makes a category out of a
      name ([extension_with]) takes the lower-casing as a parameter.
    - Python [float] is a binary floating-point number with 53 bits of
      precision and round-to-nearest-even, kept as an exact pair of
      mantissa and exponent.  The exponent range of binary64 is not
      modelled: [OverflowError] starts at 2^1024 and gradual underflow
      below 2^-1022, neither of which a byte count or an average of byte
      counts reaches.
    - The file system seen by [os.walk] is a tree of directory listings
      that carries the outcome of every system call of the scan: a listing
      that fails, a size that cannot be read.
    - The report writers run in a small state and error monad over the
      files written, the console and the room left on the device.  A file
      is known by the text of its name: two names that lead to one file
      ([report.json] and [./report.json], a link) are not modelled, and a
      property is stated for one file, or holds whichever files the names
      lead to.  A write fails for want of room only: the text written is
      taken to be encodable as UTF-8, which it is when the paths of the
      counted files are ASCII ([ascii_paths]).
    - The start of the walk is given as the directory it leads to: a start
      path that is itself a symbolic link is the directory behind it.
      [DirLink] stands for a link met below the start. *)

From Stdlib Require Import ZArith List String Ascii Bool Lia Arith.
From Stdlib Require Import Sorted Permutation.
Import ListNotations.

Local Open Scope string_scope.
Local Open Scope Z_scope.

(* ================================================================== *)
(** * Strings *)

Module Str.

(** The decimal digit [d] (0..9) as a character. *)
Definition digit_char (d : Z) : ascii := ascii_of_nat (48 + Z.to_nat d).

Definition is_digit (c : ascii) : bool :=
  let n := nat_of_ascii c in (48 <=? n)%nat && (n <=? 57)%nat.

Fixpoint all_digits (s : string) : bool :=
  match s with
  | EmptyString => true
  | String c r => is_digit c && all_digits r
  end.

(** Decimal digits of a non-negative integer, most significant first. *)
Fixpoint dec_digits (fuel : nat) (n : Z) (acc : string) : string :=
  match fuel with
  | O => acc
  | S f =>
      let acc' := String (digit_char (n mod 10)) acc in
      if n <? 10 then acc' else dec_digits f (n / 10) acc'
  end.

Definition of_nonneg (n : Z) : string :=
  dec_digits (S (Z.to_nat (Z.log2 n))) n "".

(** [str(n)] for a Python int. *)
Definition of_Z (n : Z) : string :=
  if n <? 0 then "-" ++ of_nonneg (- n) else of_nonneg n.

(** The last [p] decimal digits of [n], zero padded. *)
Fixpoint frac_digits (p : nat) (n : Z) (acc : string) : string :=
  match p with
  | O => acc
  | S p' => frac_digits p' (n / 10) (String (digit_char (n mod 10)) acc)
  end.

(** The number a run of decimal digits denotes, after the digits [acc]. *)
Fixpoint decimal_from (acc : Z) (s : string) : Z :=
  match s with
  | EmptyString => acc
  | String c r => decimal_from (acc * 10 + (Z.of_nat (nat_of_ascii c) - 48)) r
  end.

Definition decimal (s : string) : Z := decimal_from 0 s.

Fixpoint repeat (c : ascii) (n : nat) : string :=
  match n with
  | O => ""
  | S n' => String c (repeat c n')
  end.

(** Number of code points of a UTF-8 encoded string: the bytes that are not
    continuation bytes (10xxxxxx).  Python pads by code points. *)
Fixpoint char_count (s : string) : nat :=
  match s with
  | EmptyString => O
  | String c r =>
      let n := nat_of_ascii c in
      if (128 <=? n)%nat && (n <? 192)%nat then char_count r
      else S (char_count r)
  end.

(** [format(s, "<w")] and [format(s, ">w")]. *)
Definition ljust (w : nat) (s : string) : string :=
  s ++ repeat " "%char (w - char_count s).

Definition rjust (w : nat) (s : string) : string :=
  repeat " "%char (w - char_count s) ++ s.

(** Digits grouped by three from the right, for [format(n, ",")]. *)
Fixpoint group3 (fuel : nat) (n : Z) : string :=
  match fuel with
  | O => of_nonneg n
  | S f =>
      if n <? 1000 then of_nonneg n
      else group3 f (n / 1000) ++ "," ++ frac_digits 3 (n mod 1000) ""
  end.

Definition with_commas (n : Z) : string :=
  if n <? 0 then "-" ++ group3 (Z.to_nat (Z.log2 (- n))) (- n)
  else group3 (Z.to_nat (Z.log2 n)) n.

(** [str.lower] on ASCII text: the letters [A] to [Z] become [a] to [z],
    every other byte stays. *)
Definition lower_char (c : ascii) : ascii :=
  let n := nat_of_ascii c in
  if (65 <=? n)%nat && (n <=? 90)%nat then ascii_of_nat (n + 32) else c.

Fixpoint lower (s : string) : string :=
  match s with
  | EmptyString => EmptyString
  | String c r => String (lower_char c) (lower r)
  end.

(** ASCII text: every byte is below 128. *)
Definition is_ascii_char (c : ascii) : bool := (nat_of_ascii c <? 128)%nat.

Fixpoint is_ascii (s : string) : bool :=
  match s with
  | EmptyString => true
  | String c r => is_ascii_char c && is_ascii r
  end.

Fixpoint mem (x : string) (l : list string) : bool :=
  match l with
  | [] => false
  | y :: r => String.eqb x y || mem x r
  end.

End Str.

(* ================================================================== *)
(** * Python numbers: [int] and [float] *)

Module Num.

(** A float is [fm * 2^fe]. *)
Record float := mkF { fm : Z; fe : Z }.

(** Nearest integer to [n / d] ([0 <= n], [0 < d]), ties to even. *)
Definition round_half_even (n d : Z) : Z :=
  let q := n / d in
  let r := n mod d in
  if 2 * r <? d then q
  else if d <? 2 * r then q + 1
  else if Z.even q then q else q + 1.

(** The float nearest to [n / d] for [0 < n], [0 < d]: the exponent is
    chosen so that the scaled quotient has 53 significant bits. *)
Definition round53_pos (n d : Z) : float :=
  let e0 := Z.log2 n - Z.log2 d - 53 in
  let scaled e := if e <? 0 then (n * 2 ^ (- e), d) else (n, d * 2 ^ e) in
  let e := let '(a, b) := scaled e0 in
           if 2 ^ 53 <=? a / b then e0 + 1 else e0 in
  let '(a, b) := scaled e in
  mkF (round_half_even a b) e.

Definition round53 (n d : Z) : float :=
  if n =? 0 then mkF 0 0
  else if n <? 0 then
    let x := round53_pos (- n) d in mkF (- fm x) (fe x)
  else round53_pos n d.

(** [float(n)] *)
Definition float_of_int (n : Z) : float := round53 n 1.

(** [a / b] on ints, [b <> 0]: the correctly rounded quotient. *)
Definition truediv (a b : Z) : float :=
  if b <? 0 then round53 (- a) (- b) else round53 a b.

(** [x * k] for a float [x] and a small int constant [k]. *)
Definition fmul_int (x : float) (k : Z) : float :=
  if fe x <? 0 then round53 (fm x * k) (2 ^ (- fe x))
  else round53 (fm x * k * 2 ^ fe x) 1.

(** [x / 2^k]: exact, only the exponent changes. *)
Definition fdiv_pow2 (x : float) (k : Z) : float := mkF (fm x) (fe x - k).

(** [x < k] for an int [k]. *)
Definition flt_int (x : float) (k : Z) : bool :=
  if fe x <? 0 then fm x <? k * 2 ^ (- fe x)
  else fm x * 2 ^ fe x <? k.

(** A value held by a Python variable that is an [int] or a [float]. *)
Inductive num :=
| PyInt (n : Z)
| PyFloat (x : float).

Definition to_float (v : num) : float :=
  match v with
  | PyInt n => float_of_int n
  | PyFloat x => x
  end.

(** [v < 1024.0]: Python compares an int with a float exactly. *)
Definition lt_1024 (v : num) : bool :=
  match v with
  | PyInt n => n <? 1024
  | PyFloat x => flt_int x 1024
  end.

(** [v / 1024.0] *)
Definition div_1024 (v : num) : num := PyFloat (fdiv_pow2 (to_float v) 10).

(** [|x| * 10^p] rounded to an integer, ties to even. *)
Definition scaled (p : nat) (x : float) : Z :=
  let a := Z.abs (fm x) in
  let scale := 10 ^ Z.of_nat p in
  if fe x <? 0 then round_half_even (a * scale) (2 ^ (- fe x))
  else a * 2 ^ fe x * scale.

(** [format(x, ".pf")] for a float: the exact value rounded to [p] decimals,
    ties to even. *)
Definition fixed (p : nat) (x : float) : string :=
  let scale := 10 ^ Z.of_nat p in
  let q := scaled p x in
  (if fm x <? 0 then "-" else "") ++
  Str.of_nonneg (q / scale) ++
  match p with
  | O => ""
  | _ => "." ++ Str.frac_digits p (q mod scale) ""
  end.

(** [format(v, ".pf")]: an int is converted to float first. *)
Definition fmt_f (p : nat) (v : num) : string := fixed p (to_float v).

End Num.

Import Num.

(* ================================================================== *)
(** * The size formatter *)

(** [format_size], the closure of [get_repo_stats]:
<<
    for unit in ['B', 'KB', 'MB', 'GB']:
        if size_bytes < 1024.0:
            return f"{size_bytes:.2f} {unit}"
        size_bytes /= 1024.0
    return f"{size_bytes:.2f} TB"
>> *)
Fixpoint format_size_loop (units : list string) (size_bytes : num) : string :=
  match units with
  | [] => fmt_f 2 size_bytes ++ " TB"
  | unit :: rest =>
      if lt_1024 size_bytes then fmt_f 2 size_bytes ++ " " ++ unit
      else format_size_loop rest (div_1024 size_bytes)
  end.

Definition format_size (size_bytes : num) : string :=
  format_size_loop ["B"; "KB"; "MB"; "GB"] size_bytes.

(* ================================================================== *)
(** * [os.path.splitext] and the extension category *)

Module Path.

(** [s.rfind(c)], counting from [i]: index of the last [c], or -1. *)
Fixpoint rfind_from (c : ascii) (s : string) (i : Z) : Z :=
  match s with
  | EmptyString => -1
  | String a r =>
      let j := rfind_from c r (i + 1) in
      if 0 <=? j then j else if Ascii.eqb a c then i else -1
  end.

Definition rfind (c : ascii) (s : string) : Z := rfind_from c s 0.

(** [p[i:i+1] != '.'] *)
Definition not_dot_at (p : string) (i : Z) : bool :=
  match String.get (Z.to_nat i) p with
  | Some a => negb (Ascii.eqb a ".")
  | None => true
  end.

(** The [while filenameIndex < dotIndex] loop of [genericpath._splitext]:
    is some character of [p] at [filenameIndex .. dotIndex-1] not a dot? *)
Fixpoint scan_stem (fuel : nat) (p : string) (filenameIndex dotIndex : Z)
  : bool :=
  match fuel with
  | O => false
  | S f =>
      if filenameIndex <? dotIndex then
        if not_dot_at p filenameIndex then true
        else scan_stem f p (filenameIndex + 1) dotIndex
      else false
  end.

(** [os.path.splitext(p)] (posixpath: [sep = '/'], [extsep = '.']).
    The extension starts at the last dot of the last path component;
    leading dots of that component belong to the root.  The split is made
    on bytes: in UTF-8 the bytes of ['/'] and ['.'] stand for these
    characters only, so it is the split on characters. *)
Definition splitext (p : string) : string * string :=
  let sepIndex := rfind "/" p in
  let dotIndex := rfind "." p in
  if (sepIndex <? dotIndex)
     && scan_stem (String.length p) p (sepIndex + 1) dotIndex
  then (substring 0 (Z.to_nat dotIndex) p,
        substring (Z.to_nat dotIndex) (String.length p - Z.to_nat dotIndex) p)
  else (p, "").

(** [os.path.relpath(os.path.join(root, file), start_path)] for a file met by
    the walk: its path components below [start_path], joined by the
    separator. *)
Definition relpath (components : list string) : string :=
  String.concat "/" components.

End Path.

(* ================================================================== *)
(** * The file system seen by [os.walk] *)

#[local] Set Warnings "-register-all".

Inductive node :=
| File (size : option N)
    (** a directory entry that is not a directory; [size] is what
        [os.path.getsize] returns for it, [None] when it raises [OSError] *)
| Dir (entries : list (string * node))
    (** a directory and its listing, in [os.scandir] order *)
| Unreadable
    (** a directory whose listing fails ([os.scandir] raises [OSError]) *)
| DirLink.
    (** a symbolic link to a directory: reported among the directories,
        not followed ([followlinks] is false) *)

(** Induction over the tree, with the property at hand for every entry of a
    directory. *)
Section NodeInduction.

Variable P : node -> Prop.
Hypothesis HFile : forall sz, P (File sz).
Hypothesis HDir : forall es, Forall (fun e => P (snd e)) es -> P (Dir es).
Hypothesis HUnreadable : P Unreadable.
Hypothesis HDirLink : P DirLink.

Fixpoint node_tree_ind (n : node) : P n :=
  match n with
  | File sz => HFile sz
  | Dir es =>
      HDir es
        ((fix entries_ind (l : list (string * node)) :
            Forall (fun e => P (snd e)) l :=
            match l with
            | [] => Forall_nil _
            | e :: r => Forall_cons e (node_tree_ind (snd e)) (entries_ind r)
            end) es)
  | Unreadable => HUnreadable
  | DirLink => HDirLink
  end.

End NodeInduction.

(** What one iteration of [for root, dirs, files in os.walk(start_path)]
    reads: [root] as its components below [start_path], and [files] with
    what [os.path.getsize] returns for each.  The loop body uses [dirs] only
    to prune it, which is part of the walk below. *)
Record visit := mkVisit {
  v_root : list string;
  v_files : list (string * option N)
}.

Definition is_dir (n : node) : bool :=
  match n with
  | File _ => false
  | _ => true
  end.

Fixpoint file_entries (es : list (string * node)) : list (string * option N) :=
  match es with
  | [] => []
  | (name, File sz) :: r => (name, sz) :: file_entries r
  | _ :: r => file_entries r
  end.

(** [os.walk(top)] with [topdown=True], [onerror=None], [followlinks=False].
    A directory that cannot be listed yields nothing: the error is dropped.
    After the loop body has run on [(root, dirs, files)] the walk descends
    into the names still in [dirs]; the body edits that list in place with
    [dirs[:] = [d for d in dirs if keep d]], so the filter is an argument of
    the walk. *)
Fixpoint os_walk (keep : string -> bool) (root : list string) (n : node)
  {struct n} : list visit :=
  match n with
  | Dir es =>
      mkVisit root (file_entries es)
      :: (fix subdirs (l : list (string * node)) : list visit :=
            match l with
            | [] => []
            | (name, c) :: r =>
                ((if is_dir c && keep name
                  then os_walk keep (root ++ [name]) c else [])
                 ++ subdirs r)%list
            end) es
  | File _ | Unreadable | DirLink => []
  end.

(** The walk from [start_path]: [None] when the path does not exist.  A
    start path that is a symbolic link is given as what it leads to. *)
Definition os_walk_top (keep : string -> bool) (start : option node)
  : list visit :=
  match start with
  | Some n => os_walk keep [] n
  | None => []
  end.

(* ================================================================== *)
(** * The scanner: [get_repo_stats] *)

Definition ignore_dirs : list string :=
  [".git"; ".github"; "__pycache__"; "node_modules"; "venv"; ".venv";
   ".idea"; ".vscode"].

Definition ignore_files : list string :=
  [".gitignore"; ".DS_Store"; "Thumbs.db"; "report.log"; "report.json"].

(** A Python [dict] from [str] to [int], in insertion order. *)
Definition dict := list (string * Z).

Fixpoint dict_get (d : dict) (k : string) (default : Z) : Z :=
  match d with
  | [] => default
  | (k', v) :: r => if String.eqb k k' then v else dict_get r k default
  end.

(** [d[k] = v]: an existing key keeps its place, a new one goes last. *)
Fixpoint dict_set (d : dict) (k : string) (v : Z) : dict :=
  match d with
  | [] => [(k, v)]
  | (k', v') :: r =>
      if String.eqb k k' then (k', v) :: r else (k', v') :: dict_set r k v
  end.

Definition dict_values (d : dict) : list Z := map snd d.

Definition sum (l : list Z) : Z := fold_right Z.add 0 l.

(** [l.sort(key=key, reverse=True)] and [sorted(l, key=key, reverse=True)]:
    descending by key, elements with equal keys keep their order. *)
Section SortDesc.

Context {A : Type}.
Variable key : A -> Z.

Fixpoint insert_desc (x : A) (l : list A) : list A :=
  match l with
  | [] => [x]
  | y :: r => if key x <? key y then y :: insert_desc x r else x :: l
  end.

Fixpoint sort_desc (l : list A) : list A :=
  match l with
  | [] => []
  | x :: r => insert_desc x (sort_desc r)
  end.

End SortDesc.

(** The category of a file name, with [str.lower] as [lower]:
<<
    _, ext = os.path.splitext(file)
    ext = ext.lower() if ext else 'no_extension'
>> *)
Definition extension_with (lower : string -> string) (file : string)
  : string :=
  let '(_, ext) := Path.splitext file in
  if String.eqb ext "" then "no_extension" else lower ext.

(** The category in the scanner of this model: lower-casing is that of
    ASCII text. *)
Definition extension (file : string) : string :=
  extension_with Str.lower file.

(** The local variables of [get_repo_stats] that the loop updates. *)
Module Loop.

Record state := mk {
  total_size : Z;
  file_count : Z;
  dir_count : Z;
  files_by_extension : dict;
  largest_files : list (list string * Z)
}.

Definition init : state := mk 0 0 0 [] [].

End Loop.

(** The body of [for file in files], for one [file] of [root]. *)
Definition scan_file (root : list string) (s : Loop.state)
  (f : string * option N) : Loop.state :=
  let '(file, getsize) := f in
  if Str.mem file ignore_files then s
  else
    let file_path := (root ++ [file])%list in
    match getsize with
    | Some n =>
        let file_size := Z.of_N n in
        let ext := extension file in
        Loop.mk (Loop.total_size s + file_size)
                (Loop.file_count s + 1)
                (Loop.dir_count s)
                (dict_set (Loop.files_by_extension s) ext
                   (dict_get (Loop.files_by_extension s) ext 0 + 1))
                (Loop.largest_files s ++ [(file_path, file_size)])%list
    | None => s
    end.

(** The body of [for root, dirs, files in os.walk(start_path)]. *)
Definition scan_dir (s : Loop.state) (v : visit) : Loop.state :=
  let s1 := Loop.mk (Loop.total_size s) (Loop.file_count s)
              (Loop.dir_count s + 1) (Loop.files_by_extension s)
              (Loop.largest_files s) in
  fold_left (scan_file (v_root v)) (v_files v) s1.

Definition keep_dir (d : string) : bool := negb (Str.mem d ignore_dirs).

Definition scan_loop (start : option node) : Loop.state :=
  fold_left scan_dir (os_walk_top keep_dir start) Loop.init.

(** An entry of ['largest_files']. *)
Record file_info := mkInfo {
  path : string;
  size_bytes : Z;
  size_human : string
}.

(** The dictionary [get_repo_stats] returns. *)
Record stats := mkStats {
  timestamp : string;
  total_size_bytes : Z;
  total_size_human : string;
  file_count : Z;
  directory_count : Z;
  total_items : Z;
  files_by_extension : dict;
  largest_files : list file_info;
  average_file_size : string
}.

(** [get_repo_stats(start_path)]; [now] is
    [datetime.now().strftime("%Y-%m-%d %H:%M:%S")]. *)
Definition get_repo_stats (start : option node) (now : string) : stats :=
  let s := scan_loop start in
  let total_size := Loop.total_size s in
  let file_count := Loop.file_count s in
  let dir_count := Loop.dir_count s in
  let largest_files := sort_desc snd (Loop.largest_files s) in
  mkStats now
    total_size
    (format_size (PyInt total_size))
    file_count
    (dir_count - 1)
    (file_count + dir_count - 1)
    (Loop.files_by_extension s)
    (map (fun '(p, size) =>
            mkInfo (Path.relpath p) size (format_size (PyInt size)))
         (firstn 10 largest_files))
    (if 0 <? file_count
     then format_size (PyFloat (truediv total_size file_count))
     else "0 B").

(* ================================================================== *)
(** * Report writers and [main] *)

Definition nl : string := String (ascii_of_nat 10) "".

(** ["=" * 60] and ["-" * 60] *)
Definition rule (c : ascii) : string := Str.repeat c 60.

Inductive exn_class :=
| FileNotFoundError
| PermissionError
| OtherException.

(** A raised exception: its class and [str(e)]. *)
Record exn := mkExn { exn_class_of : exn_class; exn_text : string }.

(** What a run writes to and what can fail there. *)
Record world := mkWorld {
  disk : list (string * string);
    (** the files written so far, newest binding first *)
  open_error : string -> option exn;
    (** what [open(name, 'w')] raises, if anything *)
  space : option nat;
    (** bytes the device still accepts; [None]: no write fails *)
  console : list string
    (** the lines printed, oldest first *)
}.

Definition disk_get (w : world) (name : string) : option string :=
  match find (fun e => String.eqb name (fst e)) (disk w) with
  | Some e => Some (snd e)
  | None => None
  end.

(** Computations that read and change the world and may raise. *)
Definition io (A : Type) : Type := world -> world * (A + exn).

Definition ret {A} (a : A) : io A := fun w => (w, inl a).

Definition bind {A B} (m : io A) (k : A -> io B) : io B :=
  fun w =>
    match m w with
    | (w', inl a) => k a w'
    | (w', inr e) => (w', inr e)
    end.

Notation "m ;;; k" := (bind m (fun _ => k))
  (at level 61, right associativity).

(** [print(line)] *)
Definition print (line : string) : io unit :=
  fun w =>
    (mkWorld (disk w) (open_error w) (space w) (console w ++ [line])%list,
     inl tt).

(** [open(name, 'w', encoding='utf-8')]: the file is created or cut to
    length zero. *)
Definition open_w (name : string) : io unit :=
  fun w =>
    match open_error w name with
    | Some e => (w, inr e)
    | None =>
        (mkWorld ((name, "") :: disk w) (open_error w) (space w) (console w),
         inl tt)
    end.

Definition no_space : exn :=
  mkExn OtherException "[Errno 28] No space left on device".

(** [f.write(text)] on the file opened as [name]: the bytes the device
    accepts are appended; when it accepts fewer than [text] has, the rest is
    lost and [OSError] is raised. *)
Definition write (name : string) (text : string) : io unit :=
  fun w =>
    let old := match disk_get w name with Some c => c | None => "" end in
    let put c sp :=
      mkWorld ((name, c) :: disk w) (open_error w) sp (console w) in
    match space w with
    | None => (put (old ++ text) None, inl tt)
    | Some k =>
        if (String.length text <=? k)%nat
        then (put (old ++ text) (Some (k - String.length text)%nat), inl tt)
        else (put (old ++ substring 0 k text) (Some O), inr no_space)
    end.

Fixpoint write_each (name : string) (chunks : list string) : io unit :=
  match chunks with
  | [] => ret tt
  | c :: r => write name c ;;; write_each name r
  end.

(** [with open(name, 'w', encoding='utf-8') as f:] followed by the writes
    of the block; leaving the block closes the file and keeps what was
    written, also when a write raised. *)
Definition with_open_w (name : string) (chunks : list string) : io unit :=
  open_w name ;;; write_each name chunks.

(** The line of one extension in the report. *)
Definition extension_line (file_count : Z) (item : string * Z) : string :=
  let '(ext, count) := item in
  let ext_name :=
    if String.eqb ext "no_extension" then "(без расширения)" else ext in
  let percentage :=
    if 0 <? file_count then PyFloat (fmul_int (truediv count file_count) 100)
    else PyInt 0 in
  Str.ljust 20 ext_name ++ " " ++ Str.rjust 6 (Str.of_Z count) ++
  " файлов (" ++ fmt_f 1 percentage ++ "%)" ++ nl.

(** The lines of the largest files, numbered from [i]. *)
Fixpoint largest_lines (i : Z) (l : list file_info) : list string :=
  match l with
  | [] => []
  | file_info :: r =>
      (Str.rjust 2 (Str.of_Z i) ++ ". " ++ Str.ljust 40 (path file_info) ++
       " " ++ Str.rjust 10 (size_human file_info) ++ nl)
      :: largest_lines (i + 1) r
  end.

(** The arguments of the [f.write] calls of [save_report], in order. *)
Definition report_head (stats : stats) : list string :=
  [ rule "=" ++ nl;
    "ОТЧЁТ О СТАТИСТИКЕ РЕПОЗИТОРИЯ" ++ nl;
    rule "=" ++ nl ++ nl;
    "Время анализа: " ++ timestamp stats ++ nl;
    "Всего файлов: " ++ Str.with_commas (file_count stats) ++ nl;
    "Всего папок: " ++ Str.with_commas (directory_count stats) ++ nl;
    "Всего элементов: " ++ Str.with_commas (total_items stats) ++ nl;
    "Общий объём: " ++ total_size_human stats ++ nl;
    "Средний размер файла: " ++ average_file_size stats ++ nl;
    nl ++ rule "-" ++ nl;
    "РАСПРЕДЕЛЕНИЕ ПО РАСШИРЕНИЯМ:" ++ nl;
    rule "-" ++ nl ].

Definition report_top10_head : list string :=
  [ nl ++ rule "-" ++ nl;
    "ТОП-10 САМЫХ БОЛЬШИХ ФАЙЛОВ:" ++ nl;
    rule "-" ++ nl ].

Definition report_foot : list string :=
  [ nl ++ rule "=" ++ nl;
    "КОНЕЦ ОТЧЁТА" ++ nl;
    rule "=" ++ nl ].

Definition report_chunks (stats : stats) : list string :=
  (report_head stats
   ++ map (extension_line (file_count stats))
        (sort_desc snd (files_by_extension stats))
   ++ report_top10_head
   ++ largest_lines 1 (largest_files stats)
   ++ report_foot)%list.

(** The whole text report. *)
Definition join (chunks : list string) : string :=
  fold_right String.append "" chunks.

Definition report_text (stats : stats) : string := join (report_chunks stats).

Definition save_report (stats : stats) (output_file : string) : io unit :=
  with_open_w output_file (report_chunks stats) ;;;
  print ("✅ Отчёт сохранён в: " ++ output_file) ;;;
  print "📊 Статистика:" ;;;
  print ("   Файлов: " ++ Str.with_commas (file_count stats)) ;;;
  print ("   Папок: " ++ Str.with_commas (directory_count stats)) ;;;
  print ("   Объём: " ++ total_size_human stats).

(** The command line: [--path], [--output], [--json]. *)
Record arguments := mkArgs {
  arg_path : string;
  arg_output : string;
  arg_json : bool
}.

Section Main.

(** The chunks that [json.dump(stats, f, indent=2, ensure_ascii=False)]
    passes to [f.write], in order. *)
Variable json_chunks : stats -> list string.

Definition save_json_report (stats : stats) (output_file : string)
  : io unit :=
  with_open_w output_file (json_chunks stats) ;;;
  print ("✅ JSON отчёт сохранён в: " ++ output_file).

(** The [try] block of [main].  [start] is the file system at [args.path]
    ([None]: no such path) and [now] the formatted [datetime.now()]. *)
Definition main_try (args : arguments) (start : option node) (now : string)
  : io Z :=
  let stats := get_repo_stats start now in
  save_report stats (arg_output args) ;;;
  (if arg_json args then save_json_report stats "report.json" else ret tt) ;;;
  ret 0.

(** The three [except] clauses of [main]. *)
Definition main_except (args : arguments) (e : exn) : io Z :=
  match exn_class_of e with
  | FileNotFoundError =>
      print ("❌ Ошибка: Директория '" ++ arg_path args ++ "' не найдена!") ;;;
      ret 1
  | PermissionError =>
      print ("❌ Ошибка: Нет доступа к директории '" ++ arg_path args ++ "'!")
      ;;; ret 1
  | OtherException =>
      print ("❌ Непредвиденная ошибка: " ++ exn_text e) ;;; ret 1
  end.

(** [main()]: the exit code. *)
Definition main (args : arguments) (start : option node) (now : string)
  : io Z :=
  print ("🔍 Анализ репозитория: " ++ arg_path args) ;;;
  fun w =>
    match main_try args start now w with
    | (w', inl code) => (w', inl code)
    | (w', inr e) => main_except args e w'
    end.

End Main.

(* ================================================================== *)
(** * Vocabulary of the properties *)

(** The units of [format_size], smallest first. *)
Definition units : list string := ["B"; "KB"; "MB"; "GB"; "TB"].


(** The visits below the entries [es] of the directory [root], in walk
    order. *)
Definition walk_entries (keep : string -> bool) (root : list string)
  (es : list (string * node)) : list visit :=
  flat_map
    (fun e : string * node =>
       if is_dir (snd e) && keep (fst e)
       then os_walk keep (root ++ [fst e]) (snd e) else [])
    es.

(** The files of one visited directory that the loop counts: not ignored
    by name, and [os.path.getsize] succeeded.  Each with the directory, its
    name and its size. *)
Definition counted_of_visit (v : visit) : list (list string * string * Z) :=
  flat_map
    (fun f : string * option N =>
       if Str.mem (fst f) ignore_files then []
       else match snd f with
            | Some n => [(v_root v, fst f, Z.of_N n)]
            | None => []
            end)
    (v_files v).

(** The counted files of a walk, in the order the loop meets them. *)
Definition counted_files (start : option node)
  : list (list string * string * Z) :=
  flat_map counted_of_visit (os_walk_top keep_dir start).

(** [d[ext] = d.get(ext, 0) + 1] *)
Definition count_extension (d : dict) (ext : string) : dict :=
  dict_set d ext (dict_get d ext 0 + 1).

(** A file of the tree that the scan counts, by the shape of the tree alone:
    it sits in a listed directory reached from the start through listed
    directories whose names are not ignored, its own name is not ignored and
    its size can be read.  [counted_in root n p size]: below the directory
    [n], whose path is [root], the file with path [p] has [size] bytes. *)
Inductive counted_in : list string -> node -> list string -> Z -> Prop :=
| counted_here root es file n :
    In (file, File (Some n)) es ->
    Str.mem file ignore_files = false ->
    counted_in root (Dir es) (root ++ [file])%list (Z.of_N n)
| counted_below root es name c p size :
    In (name, c) es ->
    Str.mem name ignore_dirs = false ->
    counted_in (root ++ [name])%list c p size ->
    counted_in root (Dir es) p size.

(** [remove_entry P t t']: the tree [t'] is [t] without one directory entry,
    at any depth, and that entry satisfies [P]. *)
Inductive remove_entry (P : string -> node -> Prop) : node -> node -> Prop :=
| remove_here es1 name c es2 :
    P name c ->
    remove_entry P (Dir (es1 ++ (name, c) :: es2)%list) (Dir (es1 ++ es2)%list)
| remove_below es1 name c c' es2 :
    remove_entry P c c' ->
    remove_entry P (Dir (es1 ++ (name, c) :: es2)%list)
                   (Dir (es1 ++ (name, c') :: es2)%list).

(** [remove_visited P t t']: as [remove_entry], and the entry sits in a
    directory that the walk visits: every directory name on the way down
    to it is kept. *)
Inductive remove_visited (P : string -> node -> Prop) : node -> node -> Prop :=
| visited_here es1 name c es2 :
    P name c ->
    remove_visited P (Dir (es1 ++ (name, c) :: es2)%list)
                     (Dir (es1 ++ es2)%list)
| visited_below es1 name c c' es2 :
    keep_dir name = true ->
    remove_visited P c c' ->
    remove_visited P (Dir (es1 ++ (name, c) :: es2)%list)
                     (Dir (es1 ++ (name, c') :: es2)%list).

(** A directory entry that is a file of [n] bytes whose name is not
    ignored. *)
Definition readable_file (n : N) (name : string) (c : node) : Prop :=
  c = File (Some n) /\ Str.mem name ignore_files = false.

(** A directory entry that is a directory with an ignored name. *)
Definition ignored_dir (name : string) (c : node) : Prop :=
  is_dir c = true /\ Str.mem name ignore_dirs = true.

(** A directory entry that is a file with an ignored name. *)
Definition ignored_file (name : string) (c : node) : Prop :=
  is_dir c = false /\ Str.mem name ignore_files = true.

(** A file whose size cannot be read. *)
Definition unreadable_file (name : string) (c : node) : Prop :=
  c = File None.

(** A subdirectory whose listing fails. *)
Definition unreadable_dir (name : string) (c : node) : Prop :=
  c = Unreadable.

(** The part of the result that does not depend on the clock. *)
Definition statistics (s : stats) :=
  (total_size_bytes s, total_size_human s, file_count s, directory_count s,
   total_items s, files_by_extension s, largest_files s, average_file_size s).

(** The loop state after [dirs] more directories and the counted files [cf],
    starting from [s]. *)
Definition advance (s : Loop.state) (dirs : Z)
  (cf : list (list string * string * Z)) : Loop.state :=
  Loop.mk
    (Loop.total_size s + sum (map snd cf))
    (Loop.file_count s + Z.of_nat (List.length cf))
    (Loop.dir_count s + dirs)
    (fold_left count_extension
       (map (fun x : list string * string * Z => extension (snd (fst x))) cf)
       (Loop.files_by_extension s))
    (Loop.largest_files s
     ++ map (fun x : list string * string * Z =>
               ((fst (fst x) ++ [snd (fst x)])%list, snd x)) cf)%list.

(** [a] may stand before [b] in a list sorted by descending key. *)
Definition key_desc {A : Type} (key : A -> Z) (a b : A) : Prop :=
  key b <= key a.

(** An entry that adds nothing to the walk: the walk does not descend into
    it and the loop counts no file for it. *)
Definition inert (name : string) (c : node) : Prop :=
  (forall root,
     (if is_dir c && keep_dir name
      then os_walk keep_dir (root ++ [name]) c else []) = [])
  /\ (forall root,
        counted_of_visit (mkVisit root (file_entries [(name, c)])) = []).

(** A write to [dest] that is all or nothing: when it raises, [dest] is as
    it was before, or is not there, or holds the [full] text. *)
Definition all_or_nothing (write : io unit) (dest full : string) : Prop :=
  forall w w' e,
    write w = (w', inr e) ->
    disk_get w' dest = disk_get w dest \/
    disk_get w' dest = None \/
    disk_get w' dest = Some full.

(** [w'] differs from [w] in the files and the device only. *)
Definition same_outside (w w' : world) : Prop :=
  console w' = console w /\ open_error w' = open_error w.

(** The first line [main] prints. *)
Definition start_line (args : arguments) : string :=
  "🔍 Анализ репозитория: " ++ arg_path args.

(** The lines [save_report] prints once the report is written. *)
Definition saved_lines (stats : stats) (output_file : string) : list string :=
  [ "✅ Отчёт сохранён в: " ++ output_file;
    "📊 Статистика:";
    "   Файлов: " ++ Str.with_commas (file_count stats);
    "   Папок: " ++ Str.with_commas (directory_count stats);
    "   Объём: " ++ total_size_human stats ].

(** The line [main] prints for an exception that is neither
    [FileNotFoundError] nor [PermissionError]. *)
Definition unexpected_line (e : exn) : string :=
  "❌ Непредвиденная ошибка: " ++ exn_text e.

(** Does [c] occur in [s]? *)
Fixpoint has_char (c : ascii) (s : string) : bool :=
  match s with
  | EmptyString => false
  | String a r => Ascii.eqb a c || has_char c r
  end.

(** The part of [s] from its last ['.'] on; [None] when [s] has no ['.']. *)
Fixpoint last_dot_suffix (s : string) : option string :=
  match s with
  | EmptyString => None
  | String c r =>
      match last_dot_suffix r with
      | Some suffix => Some suffix
      | None => if Ascii.eqb c "." then Some s else None
      end
  end.

(** Is some character of [s] before its last ['.'] not a ['.']? *)
Fixpoint stem_has_non_dot (s : string) : bool :=
  match s with
  | EmptyString => false
  | String c r =>
      match last_dot_suffix r with
      | Some _ => negb (Ascii.eqb c ".") || stem_has_non_dot r
      | None => false
      end
  end.

(** The category as the specification words it: the part of the name from
    its last ['.'] on, lower-cased, and the sentinel exactly for the names
    without ['.']. *)
Definition category_by_last_dot (file : string) : string :=
  match last_dot_suffix file with
  | Some suffix => Str.lower suffix
  | None => "no_extension"
  end.

(** The category with the leading dots of the name taken as part of its
    stem: the lower-cased part from the last ['.'] on when a character that
    is not a ['.'] stands before that ['.'], the sentinel otherwise.
    [lower] is the lower-casing. *)
Definition category_after_stem (lower : string -> string) (file : string)
  : string :=
  match last_dot_suffix file with
  | Some suffix =>
      if stem_has_non_dot file then lower suffix else "no_extension"
  | None => "no_extension"
  end.

(** A lower-casing leaves a dot at the head of a text where it is, as
    [str.lower] does. *)
Definition keeps_leading_dot (lower : string -> string) : Prop :=
  forall rest, exists rest', lower (String "." rest) = String "." rest'.

(* ================================================================== *)
(** * Trees and worlds of the examples *)

(** The scenario of the specification: three counted files and an ignored
    [venv/]. *)
Definition scenario : node :=
  Dir [ ("a.txt", File (Some 100%N));
        ("b.TXT", File (Some 50%N));
        ("README", File (Some 10%N));
        ("venv", Dir [("x.py", File (Some 999999%N))]) ].

(** A world with nothing written, no failing [open] and no limit. *)
Definition fresh : world := mkWorld [] (fun _ => None) None [].

(** A tree with a subdirectory that cannot be listed, below a
    subdirectory. *)
Definition locked_tree : node :=
  Dir [ ("src", Dir [ ("main.py", File (Some 2048%N));
                      ("private", Unreadable) ]);
        ("README", File (Some 10%N)) ].

Definition open_tree : node :=
  Dir [ ("src", Dir [ ("main.py", File (Some 2048%N)) ]);
        ("README", File (Some 10%N)) ].

(** The result for an empty directory. *)
Definition empty_stats : stats :=
  get_repo_stats (Some (Dir [])) "2024-01-01 00:00:00".

(** A world whose device accepts 61 more bytes, with an earlier report. *)
Definition nearly_full : world :=
  mkWorld [("report.log", "old")] (fun _ => None) (Some 61%nat) [].

(* ================================================================== *)
(** * Vocabulary of the further properties *)

(** How often [x] stands in [l]. *)
Fixpoint count_of (x : string) (l : list string) : Z :=
  match l with
  | [] => 0
  | y :: r => (if String.eqb x y then 1 else 0) + count_of x r
  end.

(** The categories of the counted files, in walk order. *)
Definition counted_extensions (start : option node) : list string :=
  map (fun x : list string * string * Z => extension (snd (fst x)))
    (counted_files start).

(** The keys of a dictionary, in insertion order. *)
Definition dict_keys (d : dict) : list string := map fst d.

(** A text of the form [<digits>.<two digits> <unit>]. *)
Definition size_text (s : string) : Prop :=
  exists (k : nat) (ip : string) (d1 d2 : ascii),
    s = ip ++ "." ++ String d1 (String d2 "") ++ " " ++ nth k units "" /\
    (k <= 4)%nat /\ ip <> "" /\ Str.all_digits ip = true /\
    Str.is_digit d1 = true /\ Str.is_digit d2 = true.

(** The sizes of the files that a directory listing itself adds to the
    count: entries that are files with a readable size and a name that is
    not ignored. *)
Definition own_sizes (es : list (string * node)) : list Z :=
  flat_map
    (fun e : string * node =>
       match snd e with
       | File (Some n) =>
           if Str.mem (fst e) ignore_files then [] else [Z.of_N n]
       | _ => []
       end)
    es.

(** An entry that is a subdirectory with a listing and a name that is not
    ignored. *)
Definition listed_subdir (e : string * node) : bool :=
  match snd e with
  | Dir _ => keep_dir (fst e)
  | _ => false
  end.

(** The sizes the loop counts in one visit; they depend on the files of the
    visit only. *)
Definition sizes_of_files (files : list (string * option N)) : list Z :=
  map snd (counted_of_visit (mkVisit [] files)).

(** The sizes the loop counts over a walk, in walk order. *)
Definition sizes_of_walk (walk : list visit) : list Z :=
  flat_map (fun v => sizes_of_files (v_files v)) walk.

(** The entry of ['largest_files'] for a counted file. *)
Definition info_of (x : list string * string * Z) : file_info :=
  mkInfo (Path.relpath (fst (fst x) ++ [snd (fst x)])%list) (snd x)
    (format_size (PyInt (snd x))).

(** The total of the counted sizes is one that Python turns into a float:
    [format_size] divides it by [1024.0], which raises [OverflowError] from
    [2 ^ 1024] on.  The sizes of a file system are far below. *)
Definition float_range (start : option node) : Prop :=
  Loop.total_size (scan_loop start) < 2 ^ 1024.

(** The names of the counted files are ASCII text: there the categories of
    the model are those of the program. *)
Definition ascii_names (start : option node) : Prop :=
  forallb (fun x : list string * string * Z => Str.is_ascii (snd (fst x)))
    (counted_files start) = true.

(** The paths of the counted files are ASCII text, directories and names:
    there the report is the program's, and every text written can be
    encoded. *)
Definition ascii_paths (start : option node) : Prop :=
  forallb (fun x : list string * string * Z =>
             forallb Str.is_ascii (fst (fst x) ++ [snd (fst x)])%list)
    (counted_files start) = true.

(** The files other than [names] are in [w'] as they are in [w]. *)
Definition untouched_outside (names : list string) (w w' : world) : Prop :=
  forall other, ~ In other names -> disk_get w' other = disk_get w other.

(** The line [main] prints for an exception, by its class. *)
Definition failure_line (args : arguments) (e : exn) : string :=
  match exn_class_of e with
  | FileNotFoundError =>
      "❌ Ошибка: Директория '" ++ arg_path args ++ "' не найдена!"
  | PermissionError =>
      "❌ Ошибка: Нет доступа к директории '" ++ arg_path args ++ "'!"
  | OtherException => "❌ Непредвиденная ошибка: " ++ exn_text e
  end.

(** The line [save_json_report] prints once the file is written. *)
Definition json_saved_line (output_file : string) : string :=
  "✅ JSON отчёт сохранён в: " ++ output_file.

(** The files a run may write. *)
Definition written_by (args : arguments) : list string :=
  if arg_json args then [arg_output args; "report.json"]
  else [arg_output args].

(** A world in which no file can be opened for writing: the directory of
    the output does not exist. *)
Definition read_only : world :=
  mkWorld [] (fun name =>
                Some (mkExn FileNotFoundError
                        ("[Errno 2] No such file or directory: '"
                         ++ name ++ "'")))
    None [].


(** A world whose device accepts 1500 more bytes: the text report of the
    scenario (1171 bytes), and no text of 2000 bytes. *)
Definition small_device : world :=
  mkWorld [] (fun _ => None) (Some 1500%nat) [].
(* ================================================================== *)
(** * Strings and decimal digits *)

Section StringFacts.

Lemma append_assoc (a b c : string) : (a ++ b) ++ c = a ++ b ++ c.
Proof. induction a as [| x a IH]; simpl; [reflexivity | now rewrite IH]. Qed.

Lemma append_nil_r (a : string) : a ++ "" = a.
Proof. induction a as [| x a IH]; simpl; [reflexivity | now rewrite IH]. Qed.

Lemma length_append (a b : string) :
  String.length (a ++ b) = (String.length a + String.length b)%nat.
Proof. induction a as [| x a IH]; simpl; [reflexivity | now rewrite IH]. Qed.

End StringFacts.

Section SubstringFacts.

Lemma substring_0_0 s : substring 0 0 s = "".
Proof. now destruct s. Qed.

Lemma substring_0_app_short a : forall b k,
  (k <= String.length a)%nat -> substring 0 k (a ++ b) = substring 0 k a.
Proof.
  induction a as [| x a IH]; intros b k Hk.
  - cbn [String.length] in Hk. assert (k = O) as -> by lia.
    now rewrite !substring_0_0.
  - destruct k as [| k]; [reflexivity |].
    cbn [String.length] in Hk. cbn [append substring].
    f_equal. apply IH. lia.
Qed.

Lemma substring_0_app_long a : forall b k,
  (String.length a <= k)%nat ->
  substring 0 k (a ++ b) = a ++ substring 0 (k - String.length a) b.
Proof.
  induction a as [| x a IH]; intros b k Hk.
  - cbn [append String.length]. now rewrite Nat.sub_0_r.
  - destruct k as [| k]; [cbn [String.length] in Hk; lia |].
    cbn [String.length] in *. cbn [append substring Nat.sub].
    f_equal. apply IH. lia.
Qed.

Lemma substring_0_all a : substring 0 (String.length a) a = a.
Proof.
  induction a as [| x a IH]; [reflexivity |].
  cbn [String.length substring]. now rewrite IH.
Qed.

Lemma substring_0_length a : forall k,
  (k <= String.length a)%nat -> String.length (substring 0 k a) = k.
Proof.
  induction a as [| x a IH]; intros k Hk.
  - cbn [String.length] in Hk. assert (k = O) as -> by lia. reflexivity.
  - destruct k as [| k]; [reflexivity |].
    cbn [String.length] in *. cbn [substring String.length].
    f_equal. apply IH. lia.
Qed.

End SubstringFacts.

Section Digits.

Lemma is_digit_digit_char d :
  0 <= d < 10 -> Str.is_digit (Str.digit_char d) = true.
Proof.
  intros H.
  assert (E : d = 0 \/ d = 1 \/ d = 2 \/ d = 3 \/ d = 4 \/ d = 5 \/ d = 6
              \/ d = 7 \/ d = 8 \/ d = 9) by lia.
  repeat (destruct E as [-> | E]; [reflexivity |]). subst d. reflexivity.
Qed.

Lemma is_digit_mod10 n : Str.is_digit (Str.digit_char (n mod 10)) = true.
Proof. apply is_digit_digit_char. apply Z.mod_pos_bound. lia. Qed.

Lemma dec_digits_all fuel : forall n acc,
  Str.all_digits acc = true ->
  Str.all_digits (Str.dec_digits fuel n acc) = true.
Proof.
  induction fuel as [| f IH]; intros n acc Hacc;
    cbn [Str.dec_digits]; [exact Hacc |].
  assert (H : Str.all_digits (String (Str.digit_char (n mod 10)) acc) = true).
  { cbn [Str.all_digits]. now rewrite is_digit_mod10. }
  destruct (n <? 10); [exact H | now apply IH].
Qed.

Lemma dec_digits_nonempty fuel : forall n acc,
  (acc <> "" \/ fuel <> O) -> Str.dec_digits fuel n acc <> "".
Proof.
  induction fuel as [| f IH]; intros n acc H; cbn [Str.dec_digits].
  - destruct H as [H | H]; [exact H | congruence].
  - destruct (n <? 10); [discriminate |].
    apply IH. left. discriminate.
Qed.

Lemma of_nonneg_all_digits n : Str.all_digits (Str.of_nonneg n) = true.
Proof. apply dec_digits_all. reflexivity. Qed.

Lemma of_nonneg_nonempty n : Str.of_nonneg n <> "".
Proof. apply dec_digits_nonempty. right. discriminate. Qed.

End Digits.

Section DecimalValue.

Lemma digit_char_value d :
  0 <= d < 10 -> Z.of_nat (nat_of_ascii (Str.digit_char d)) - 48 = d.
Proof.
  intros H.
  assert (E : d = 0 \/ d = 1 \/ d = 2 \/ d = 3 \/ d = 4 \/ d = 5 \/ d = 6
              \/ d = 7 \/ d = 8 \/ d = 9) by lia.
  repeat (destruct E as [-> | E]; [reflexivity |]). subst d. reflexivity.
Qed.

Lemma decimal_from_app a : forall acc b,
  Str.decimal_from acc (a ++ b)
  = Str.decimal_from (Str.decimal_from acc a) b.
Proof.
  induction a as [| c a IH]; intros acc b; [reflexivity |].
  cbn [append Str.decimal_from]. apply IH.
Qed.

(** With enough fuel [dec_digits] puts the decimal digits of [n] before
    [acc]. *)
Lemma dec_digits_value fuel : forall n acc,
  0 <= n < 10 ^ Z.of_nat fuel ->
  exists ds,
    Str.dec_digits fuel n acc = ds ++ acc /\
    forall a0,
      Str.decimal_from a0 ds
      = a0 * 10 ^ Z.of_nat (String.length ds) + n.
Proof.
  induction fuel as [| f IH]; intros n acc Hn.
  - exists "". split; [reflexivity |]. intros a0.
    change (10 ^ Z.of_nat 0) with 1 in Hn. cbn. lia.
  - cbn [Str.dec_digits].
    assert (Hmod : 0 <= n mod 10 < 10) by (apply Z.mod_pos_bound; lia).
    destruct (n <? 10) eqn:E.
    + apply Z.ltb_lt in E.
      exists (String (Str.digit_char (n mod 10)) ""). split; [reflexivity |].
      intros a0. cbn [Str.decimal_from String.length].
      rewrite digit_char_value by exact Hmod.
      rewrite Z.mod_small by lia. change (10 ^ Z.of_nat 1) with 10. lia.
    + apply Z.ltb_ge in E.
      assert (Hdiv : 0 <= n / 10 < 10 ^ Z.of_nat f).
      { split; [apply Z.div_pos; lia |].
        apply Z.div_lt_upper_bound; [lia |].
        rewrite Nat2Z.inj_succ, Z.pow_succ_r in Hn by lia. lia. }
      destruct (IH (n / 10) (String (Str.digit_char (n mod 10)) acc) Hdiv)
        as (ds & Eds & Hval).
      exists (ds ++ String (Str.digit_char (n mod 10)) "").
      split; [rewrite Eds, append_assoc; reflexivity |].
      intros a0. rewrite decimal_from_app, Hval.
      cbn [Str.decimal_from]. rewrite digit_char_value by exact Hmod.
      rewrite length_append. cbn [String.length].
      rewrite Nat2Z.inj_add, Z.pow_add_r by lia.
      change (10 ^ Z.of_nat 1) with 10.
      pose proof (Z.div_mod n 10 ltac:(lia)). lia.
Qed.

Lemma decimal_of_nonneg n : 0 <= n -> Str.decimal (Str.of_nonneg n) = n.
Proof.
  intros Hn. unfold Str.of_nonneg, Str.decimal.
  assert (Hfuel : 0 <= n < 10 ^ Z.of_nat (S (Z.to_nat (Z.log2 n)))).
  { split; [exact Hn |].
    rewrite Nat2Z.inj_succ, Z2Nat.id by apply Z.log2_nonneg.
    destruct (Z.eq_dec n 0) as [-> | Hz]; [reflexivity |].
    destruct (Z.log2_spec n ltac:(lia)) as [_ Hhi].
    eapply Z.lt_le_trans; [exact Hhi |].
    apply Z.pow_le_mono_l. lia. }
  destruct (dec_digits_value _ n "" Hfuel) as (ds & E & Hval).
  rewrite E, append_nil_r, Hval. lia.
Qed.

Lemma decimal_two_digits m :
  0 <= m < 100 ->
  Str.decimal (String (Str.digit_char (m / 10 mod 10))
                 (String (Str.digit_char (m mod 10)) "")) = m.
Proof.
  intros Hm. unfold Str.decimal. cbn [Str.decimal_from].
  assert (H1 : 0 <= m / 10 mod 10 < 10) by (apply Z.mod_pos_bound; lia).
  assert (H2 : 0 <= m mod 10 < 10) by (apply Z.mod_pos_bound; lia).
  rewrite !digit_char_value by assumption.
  assert (m / 10 < 10) by (apply Z.div_lt_upper_bound; lia).
  assert (0 <= m / 10) by (apply Z.div_pos; lia).
  rewrite (Z.mod_small (m / 10)) by lia.
  pose proof (Z.div_mod m 10 ltac:(lia)). lia.
Qed.

End DecimalValue.

(* ================================================================== *)
(** * The size formatter *)

Lemma round_half_even_nonneg n d :
  0 <= n -> 0 < d -> 0 <= round_half_even n d.
Proof.
  intros Hn Hd. unfold round_half_even.
  assert (0 <= n / d) by (apply Z.div_pos; lia).
  destruct (2 * (n mod d) <? d); [lia |].
  destruct (d <? 2 * (n mod d)); [lia |].
  destruct (Z.even (n / d)); lia.
Qed.

Lemma scaled_nonneg p x : 0 <= scaled p x.
Proof.
  unfold scaled.
  assert (0 <= Z.abs (fm x)) by apply Z.abs_nonneg.
  assert (0 < 10 ^ Z.of_nat p) by (apply Z.pow_pos_nonneg; lia).
  destruct (fe x <? 0) eqn:E.
  - apply round_half_even_nonneg; [nia |].
    apply Z.pow_pos_nonneg; [lia |]. apply Z.ltb_lt in E. lia.
  - apply Z.ltb_ge in E.
    assert (0 < 2 ^ fe x) by (apply Z.pow_pos_nonneg; lia). nia.
Qed.

(** [f"{x:.2f}"] of a non-negative float is a run of digits, a point and two
    digits; read as a number of hundredths it is [scaled 2 x]. *)
Lemma fixed_2_shape x :
  0 <= fm x ->
  exists ip d1 d2,
    fixed 2 x = ip ++ "." ++ String d1 (String d2 "") /\
    ip <> "" /\ Str.all_digits ip = true /\
    Str.is_digit d1 = true /\ Str.is_digit d2 = true /\
    Str.decimal ip * 100 + Str.decimal (String d1 (String d2 ""))
    = scaled 2 x.
Proof.
  intros Hm. unfold fixed.
  destruct (fm x <? 0) eqn:E; [apply Z.ltb_lt in E; lia |].
  pose proof (scaled_nonneg 2 x) as Hq.
  set (q := scaled 2 x) in *.
  change (10 ^ Z.of_nat 2) with 100.
  exists (Str.of_nonneg (q / 100)),
    (Str.digit_char ((q mod 100) / 10 mod 10)),
    (Str.digit_char ((q mod 100) mod 10)).
  assert (Hmod : 0 <= q mod 100 < 100) by (apply Z.mod_pos_bound; lia).
  repeat split.
  - apply of_nonneg_nonempty.
  - apply of_nonneg_all_digits.
  - apply is_digit_mod10.
  - apply is_digit_mod10.
  - rewrite decimal_of_nonneg by (apply Z.div_pos; lia).
    rewrite decimal_two_digits by exact Hmod.
    pose proof (Z.div_mod q 100 ltac:(lia)). lia.
Qed.

Section FloatOfInt.

Lemma round_half_even_one n : round_half_even n 1 = n.
Proof.
  unfold round_half_even. rewrite Z.mod_1_r, Z.div_1_r. reflexivity.
Qed.

Lemma round_half_even_lower n d :
  0 < d -> n / d <= round_half_even n d.
Proof.
  intros Hd. unfold round_half_even.
  destruct (2 * (n mod d) <? d); [lia |].
  destruct (d <? 2 * (n mod d)); [lia |].
  destruct (Z.even (n / d)); lia.
Qed.

(** Below 2^53 the conversion is exact: the mantissa is [n] shifted to 53
    bits. *)
Lemma float_of_int_small n :
  0 < n < 2 ^ 53 ->
  float_of_int n = mkF (n * 2 ^ (52 - Z.log2 n)) (Z.log2 n - 52).
Proof.
  intros [Hpos Hlt].
  assert (HL : 0 <= Z.log2 n < 53).
  { split; [apply Z.log2_nonneg |]. apply Z.log2_lt_pow2; lia. }
  destruct (Z.log2_spec n Hpos) as [Hlo Hhi].
  unfold float_of_int, round53.
  destruct (n =? 0) eqn:E0; [apply Z.eqb_eq in E0; lia |].
  destruct (n <? 0) eqn:E1; [apply Z.ltb_lt in E1; lia |].
  unfold round53_pos.
  change (Z.log2 1) with 0.
  replace (Z.log2 n - 0 - 53) with (Z.log2 n - 53) by lia.
  destruct (Z.log2 n - 53 <? 0) eqn:E2; [| apply Z.ltb_ge in E2; lia].
  rewrite Z.div_1_r.
  assert (Hbig : 2 ^ 53 <= n * 2 ^ (- (Z.log2 n - 53))).
  { replace (- (Z.log2 n - 53)) with (53 - Z.log2 n) by lia.
    replace (2 ^ 53) with (2 ^ Z.log2 n * 2 ^ (53 - Z.log2 n)).
    - apply Z.mul_le_mono_nonneg_r; [apply Z.pow_nonneg; lia | exact Hlo].
    - rewrite <- Z.pow_add_r by lia. f_equal. lia. }
  apply Z.leb_le in Hbig. rewrite Hbig.
  replace (Z.log2 n - 53 + 1) with (Z.log2 n - 52) by lia.
  destruct (Z.log2 n - 52 <? 0) eqn:E3.
  - rewrite round_half_even_one. f_equal. f_equal. f_equal. lia.
  - apply Z.ltb_ge in E3. assert (EL : Z.log2 n = 52) by lia.
    rewrite EL. change (1 * 2 ^ (52 - 52)) with 1.
    rewrite round_half_even_one. change (2 ^ (52 - 52)) with 1.
    f_equal. lia.
Qed.

(** From 2^53 on the conversion rounds; the result is at least 2^53. *)
Lemma float_of_int_big n :
  2 ^ 53 <= n ->
  2 ^ 52 <= fm (float_of_int n) /\ 1 <= fe (float_of_int n).
Proof.
  intros Hge.
  assert (Hpos : 0 < n) by (assert (0 < 2 ^ 53) by reflexivity; lia).
  assert (HL : 53 <= Z.log2 n).
  { apply Z.log2_le_pow2; [exact Hpos | exact Hge]. }
  destruct (Z.log2_spec n Hpos) as [Hlo Hhi].
  unfold float_of_int, round53.
  destruct (n =? 0) eqn:E0; [apply Z.eqb_eq in E0; lia |].
  destruct (n <? 0) eqn:E1; [apply Z.ltb_lt in E1; lia |].
  unfold round53_pos.
  change (Z.log2 1) with 0.
  replace (Z.log2 n - 0 - 53) with (Z.log2 n - 53) by lia.
  destruct (Z.log2 n - 53 <? 0) eqn:E2; [apply Z.ltb_lt in E2; lia |].
  rewrite Z.mul_1_l.
  assert (Hsplit : 2 ^ Z.log2 n = 2 ^ 53 * 2 ^ (Z.log2 n - 53)).
  { rewrite <- Z.pow_add_r by lia. f_equal. lia. }
  assert (Hp : 0 < 2 ^ (Z.log2 n - 53)) by (apply Z.pow_pos_nonneg; lia).
  assert (Hbig : 2 ^ 53 <= n / 2 ^ (Z.log2 n - 53)).
  { apply Z.div_le_lower_bound; [exact Hp |]. lia. }
  apply Z.leb_le in Hbig. rewrite Hbig.
  replace (Z.log2 n - 53 + 1) with (Z.log2 n - 52) by lia.
  destruct (Z.log2 n - 52 <? 0) eqn:E3; [apply Z.ltb_lt in E3; lia |].
  rewrite Z.mul_1_l. cbn [fm fe]. split; [| lia].
  assert (Hq : 0 < 2 ^ (Z.log2 n - 52)) by (apply Z.pow_pos_nonneg; lia).
  eapply Z.le_trans; [| apply round_half_even_lower; exact Hq].
  apply Z.div_le_lower_bound; [exact Hq |].
  replace (2 ^ (Z.log2 n - 52) * 2 ^ 52) with (2 ^ Z.log2 n); [exact Hlo |].
  rewrite <- Z.pow_add_r by lia. f_equal. lia.
Qed.

Lemma float_of_int_nonneg n : 0 <= n -> 0 <= fm (float_of_int n).
Proof.
  intros Hn.
  destruct (Z.eq_dec n 0) as [-> | Hz]; [reflexivity |].
  destruct (Z_lt_le_dec n (2 ^ 53)) as [Hs | Hb].
  - rewrite float_of_int_small by lia. cbn [fm].
    apply Z.mul_nonneg_nonneg; [lia | apply Z.pow_nonneg; lia].
  - destruct (float_of_int_big n Hb) as [H _].
    assert (0 < 2 ^ 52) by reflexivity. lia.
Qed.

(** After [j] divisions by 1024 the test [size_bytes < 1024.0] on the
    float decides [n < 1024^(j+1)], for the units below TB. *)
Lemma flt_int_float_of_int n s :
  0 < n -> 0 <= s <= 30 ->
  flt_int (mkF (fm (float_of_int n)) (fe (float_of_int n) - s)) 1024
  = (n <? 1024 * 2 ^ s).
Proof.
  intros Hpos Hs.
  assert (Hps : 0 < 2 ^ s) by (apply Z.pow_pos_nonneg; lia).
  destruct (Z_lt_le_dec n (2 ^ 53)) as [Hsmall | Hbig].
  - assert (HL : 0 <= Z.log2 n < 53).
    { split; [apply Z.log2_nonneg |]. apply Z.log2_lt_pow2; lia. }
    rewrite float_of_int_small by lia. unfold flt_int. cbn [fm fe].
    destruct (Z.log2 n - 52 - s <? 0) eqn:E.
    + replace (- (Z.log2 n - 52 - s)) with ((52 - Z.log2 n) + s) by lia.
      rewrite Z.pow_add_r by lia.
      assert (Hp : 0 < 2 ^ (52 - Z.log2 n)) by (apply Z.pow_pos_nonneg; lia).
      apply eq_true_iff_eq. rewrite !Z.ltb_lt. nia.
    + apply Z.ltb_ge in E. assert (s = 0 /\ Z.log2 n = 52) as [-> EL] by lia.
      rewrite EL. change (2 ^ (52 - 52)) with 1.
      change (2 ^ (52 - 52 - 0)) with 1. change (2 ^ 0) with 1.
      apply eq_true_iff_eq. rewrite !Z.ltb_lt. lia.
  - destruct (float_of_int_big n Hbig) as [Hm He].
    assert (H52 : 2 ^ 52 = 4503599627370496) by reflexivity.
    assert (H53 : 2 ^ 53 = 9007199254740992) by reflexivity.
    assert (Hs30 : 2 ^ s <= 2 ^ 30) by (apply Z.pow_le_mono_r; lia).
    assert (H30 : 2 ^ 30 = 1073741824) by reflexivity.
    assert (R : (n <? 1024 * 2 ^ s) = false) by (apply Z.ltb_ge; nia).
    rewrite R. unfold flt_int. cbn [fm fe].
    destruct (fe (float_of_int n) - s <? 0) eqn:E.
    + apply Z.ltb_lt in E. apply Z.ltb_ge.
      assert (2 ^ (- (fe (float_of_int n) - s)) <= 2 ^ 30)
        by (apply Z.pow_le_mono_r; lia).
      nia.
    + apply Z.ltb_ge in E. apply Z.ltb_ge.
      assert (1 <= 2 ^ (fe (float_of_int n) - s)).
      { assert (0 < 2 ^ (fe (float_of_int n) - s))
          by (apply Z.pow_pos_nonneg; lia). lia. }
      nia.
Qed.

End FloatOfInt.

(** The text [format_size] returns for a float value and a unit. *)
Lemma fmt_unit_shape x unit :
  0 <= fm x ->
  exists ip d1 d2,
    fmt_f 2 (PyFloat x) ++ " " ++ unit
    = ip ++ "." ++ String d1 (String d2 "") ++ " " ++ unit /\
    ip <> "" /\ Str.all_digits ip = true /\
    Str.is_digit d1 = true /\ Str.is_digit d2 = true /\
    Str.decimal ip * 100 + Str.decimal (String d1 (String d2 ""))
    = scaled 2 x.
Proof.
  intros Hm. destruct (fixed_2_shape x Hm) as (ip & d1 & d2 & E & H).
  exists ip, d1, d2. split; [| exact H].
  unfold fmt_f, to_float. rewrite E. rewrite append_assoc. reflexivity.
Qed.

Lemma round_half_even_scale a b c :
  0 < b -> 0 < c -> round_half_even (a * c) (b * c) = round_half_even a b.
Proof.
  intros Hb Hc. unfold round_half_even.
  rewrite Z.div_mul_cancel_r by lia.
  rewrite Z.mul_mod_distr_r by lia.
  replace (2 * (a mod b * c) <? b * c) with (2 * (a mod b) <? b)
    by (apply eq_true_iff_eq; rewrite !Z.ltb_lt; nia).
  replace (b * c <? 2 * (a mod b * c)) with (b <? 2 * (a mod b))
    by (apply eq_true_iff_eq; rewrite !Z.ltb_lt; nia).
  reflexivity.
Qed.

(** Below 2^53 the hundredths that [format_size] prints after [s / 10]
    divisions by 1024 are those of the exact quotient [n / 2^s]. *)
Lemma scaled_float_of_int n s :
  0 < n < 2 ^ 53 -> 0 <= s ->
  scaled 2 (mkF (fm (float_of_int n)) (fe (float_of_int n) - s))
  = round_half_even (100 * n) (2 ^ s).
Proof.
  intros [Hpos Hlt] Hs.
  assert (HL : 0 <= Z.log2 n < 53).
  { split; [apply Z.log2_nonneg |]. apply Z.log2_lt_pow2; lia. }
  rewrite float_of_int_small by lia. unfold scaled. cbn [fm fe].
  change (10 ^ Z.of_nat 2) with 100.
  assert (Hc : 0 < 2 ^ (52 - Z.log2 n)) by (apply Z.pow_pos_nonneg; lia).
  assert (Hps : 0 < 2 ^ s) by (apply Z.pow_pos_nonneg; lia).
  rewrite Z.abs_eq by nia.
  destruct (Z.log2 n - 52 - s <? 0) eqn:E.
  - replace (- (Z.log2 n - 52 - s)) with (s + (52 - Z.log2 n)) by lia.
    rewrite Z.pow_add_r by lia.
    replace (n * 2 ^ (52 - Z.log2 n) * 100)
      with (100 * n * 2 ^ (52 - Z.log2 n)) by lia.
    now apply round_half_even_scale.
  - apply Z.ltb_ge in E. assert (s = 0 /\ Z.log2 n = 52) as [-> EL] by lia.
    rewrite EL. change (2 ^ (52 - 52)) with 1.
    change (2 ^ (52 - 52 - 0)) with 1. change (2 ^ 0) with 1.
    rewrite round_half_even_one. lia.
Qed.

(** [format_size] on an int, one unit after the other. *)
Lemma format_size_int n :
  0 < n ->
  let x := float_of_int n in
  let at_unit s := PyFloat (mkF (fm x) (fe x - s)) in
  format_size (PyInt n) =
    if n <? 1024 then fmt_f 2 (PyInt n) ++ " " ++ "B"
    else if n <? 1024 * 2 ^ 10 then fmt_f 2 (at_unit 10) ++ " " ++ "KB"
    else if n <? 1024 * 2 ^ 20 then fmt_f 2 (at_unit 20) ++ " " ++ "MB"
    else if n <? 1024 * 2 ^ 30 then fmt_f 2 (at_unit 30) ++ " " ++ "GB"
    else fmt_f 2 (at_unit 40) ++ " " ++ "TB".
Proof.
  intros Hpos x at_unit.
  assert (D0 : div_1024 (PyInt n) = at_unit 10) by reflexivity.
  assert (D : forall s, div_1024 (at_unit s) = at_unit (s + 10)).
  { intros s. unfold at_unit, div_1024, fdiv_pow2. cbn [to_float fm fe].
    do 2 f_equal. lia. }
  assert (L : forall s, 0 <= s <= 30 ->
            lt_1024 (at_unit s) = (n <? 1024 * 2 ^ s)).
  { intros s Hs. unfold at_unit, x. cbn [lt_1024].
    now apply flt_int_float_of_int. }
  unfold format_size. cbn [format_size_loop].
  change (lt_1024 (PyInt n)) with (n <? 1024).
  rewrite D0, (D 10). change (10 + 10) with 20.
  rewrite (D 20). change (20 + 10) with 30.
  rewrite (D 30). change (30 + 10) with 40.
  rewrite (L 10), (L 20), (L 30) by lia.
  reflexivity.
Qed.

(** C5.  For every byte count [n >= 0] that a float can hold,
    [format_size n] is ["<value> <unit>"]: the value is a run of decimal
    digits, a point and exactly two decimal digits, and the unit is the
    first of B, KB, MB, GB, TB for which [n] divided by the matching power
    of 1024 is below 1024 (TB when there is none).  For [n] below 2^53 the
    value, in hundredths, is [n] divided by that power of 1024 and rounded
    to the nearest hundredth.  And [format_size] gives ["0.00 B"] for 0,
    ["1023.00 B"] for 1023, ["1.00 KB"] for 1024 and ["1.00 MB"] for
    1024 * 1024. *)
Theorem format_size_contract :
  (forall n, 0 <= n < 2 ^ 1024 ->
     exists (k : nat) (ip : string) (d1 d2 : ascii),
       format_size (PyInt n)
       = ip ++ "." ++ String d1 (String d2 "") ++ " " ++ nth k units "" /\
       (k <= 4)%nat /\
       ip <> "" /\ Str.all_digits ip = true /\
       Str.is_digit d1 = true /\ Str.is_digit d2 = true /\
       (forall j, (j < k)%nat -> 1024 * 1024 ^ Z.of_nat j <= n) /\
       ((k < 4)%nat -> n < 1024 * 1024 ^ Z.of_nat k) /\
       (n < 2 ^ 53 ->
        Str.decimal ip * 100 + Str.decimal (String d1 (String d2 ""))
        = round_half_even (100 * n) (1024 ^ Z.of_nat k))) /\
  format_size (PyInt 0) = "0.00 B" /\
  format_size (PyInt 1023) = "1023.00 B" /\
  format_size (PyInt 1024) = "1.00 KB" /\
  format_size (PyInt (1024 * 1024)) = "1.00 MB".
Proof.
  split; [| repeat split; vm_compute; reflexivity].
  intros n [Hn _].
  destruct (Z.eq_dec n 0) as [-> | Hnz].
  { exists 0%nat, "0", "0"%char, "0"%char.
    repeat split; try reflexivity; try discriminate; lia. }
  assert (Hpos : 0 < n) by lia.
  pose proof (float_of_int_nonneg n Hn) as Hm.
  rewrite (format_size_int n Hpos). cbv zeta.
  change (fmt_f 2 (PyInt n))
    with (fmt_f 2 (PyFloat (float_of_int n))).
  assert (X0 : float_of_int n
               = mkF (fm (float_of_int n)) (fe (float_of_int n) - 10 * 0)).
  { destruct (float_of_int n). cbn [fm fe]. f_equal. lia. }
  assert (P10 : 1024 * 2 ^ 10 = 1048576) by reflexivity.
  assert (P20 : 1024 * 2 ^ 20 = 1073741824) by reflexivity.
  assert (P30 : 1024 * 2 ^ 30 = 1099511627776) by reflexivity.
  rewrite P10, P20, P30.
  assert (Hunit : forall k : nat,
    (k <= 4)%nat ->
    (forall j, (j < k)%nat -> 1024 * 1024 ^ Z.of_nat j <= n) ->
    ((k < 4)%nat -> n < 1024 * 1024 ^ Z.of_nat k) ->
    forall x,
    x = mkF (fm (float_of_int n)) (fe (float_of_int n) - 10 * Z.of_nat k) ->
    exists (ip : string) (d1 d2 : ascii),
      fmt_f 2 (PyFloat x) ++ " " ++ nth k units ""
      = ip ++ "." ++ String d1 (String d2 "") ++ " " ++ nth k units "" /\
      (k <= 4)%nat /\
      ip <> "" /\ Str.all_digits ip = true /\
      Str.is_digit d1 = true /\ Str.is_digit d2 = true /\
      (forall j, (j < k)%nat -> 1024 * 1024 ^ Z.of_nat j <= n) /\
      ((k < 4)%nat -> n < 1024 * 1024 ^ Z.of_nat k) /\
      (n < 2 ^ 53 ->
       Str.decimal ip * 100 + Str.decimal (String d1 (String d2 ""))
       = round_half_even (100 * n) (1024 ^ Z.of_nat k))).
  { intros k Hk Hlow Hup x ->.
    destruct (fmt_unit_shape
                (mkF (fm (float_of_int n))
                   (fe (float_of_int n) - 10 * Z.of_nat k))
                (nth k units "") Hm)
      as (ip & d1 & d2 & E & H1 & H2 & H3 & H4 & H5).
    exists ip, d1, d2. repeat split; try assumption.
    intros H53. rewrite H5, scaled_float_of_int by lia.
    f_equal. change 1024 with (2 ^ 10).
    rewrite <- Z.pow_mul_r by lia. reflexivity. }
  assert (Hlow : forall k : nat, (k <= 4)%nat ->
            1024 * 1024 ^ (Z.of_nat k - 1) <= n -> 1024 <= n ->
            forall j, (j < k)%nat -> 1024 * 1024 ^ Z.of_nat j <= n).
  { intros k Hk Hge H0 j Hlt.
    eapply Z.le_trans; [| exact Hge].
    apply Z.mul_le_mono_nonneg_l; [lia |].
    apply Z.pow_le_mono_r; lia. }
  destruct (n <? 1024) eqn:E0.
  { apply Z.ltb_lt in E0. exists 0%nat.
    apply (Hunit 0%nat);
      [lia | intros j Hj; lia | intros _; exact E0 | exact X0]. }
  apply Z.ltb_ge in E0.
  destruct (n <? 1048576) eqn:E1.
  { apply Z.ltb_lt in E1. exists 1%nat.
    apply (Hunit 1%nat);
      [lia | apply Hlow; [lia | exact E0 | exact E0] | intros _; exact E1
      | reflexivity]. }
  apply Z.ltb_ge in E1.
  destruct (n <? 1073741824) eqn:E2.
  { apply Z.ltb_lt in E2. exists 2%nat.
    apply (Hunit 2%nat);
      [lia | apply Hlow; [lia | exact E1 | exact E0] | intros _; exact E2
      | reflexivity]. }
  apply Z.ltb_ge in E2.
  destruct (n <? 1099511627776) eqn:E3.
  { apply Z.ltb_lt in E3. exists 3%nat.
    apply (Hunit 3%nat);
      [lia | apply Hlow; [lia | exact E2 | exact E0] | intros _; exact E3
      | reflexivity]. }
  apply Z.ltb_ge in E3. exists 4%nat.
  apply (Hunit 4%nat);
    [lia | apply Hlow; [lia | exact E3 | exact E0] | intros H; lia
    | reflexivity].
Qed.

(* ================================================================== *)
(** * The extension of a file name *)

Section Splitext.

Lemma rfind_from_absent c s : forall i,
  has_char c s = false -> Path.rfind_from c s i = -1.
Proof.
  induction s as [| a r IH]; intros i H; [reflexivity |].
  cbn [has_char] in H. apply orb_false_elim in H. destruct H as [Ha Hr].
  cbn [Path.rfind_from]. rewrite (IH (i + 1) Hr), Ha. reflexivity.
Qed.

Lemma scan_stem_shift fuel c r : forall i d,
  0 <= i ->
  Path.scan_stem fuel (String c r) (i + 1) (d + 1)
  = Path.scan_stem fuel r i d.
Proof.
  induction fuel as [| f IH]; intros i d Hi; [reflexivity |].
  cbn [Path.scan_stem].
  replace (i + 1 <? d + 1) with (i <? d)
    by (apply eq_true_iff_eq; rewrite !Z.ltb_lt; lia).
  destruct (i <? d); [| reflexivity].
  assert (E : Path.not_dot_at (String c r) (i + 1) = Path.not_dot_at r i).
  { unfold Path.not_dot_at.
    replace (Z.to_nat (i + 1)) with (S (Z.to_nat i)) by lia. reflexivity. }
  rewrite E. destruct (Path.not_dot_at r i); [reflexivity |].
  apply IH. lia.
Qed.

Lemma last_dot_suffix_starts_with_dot s suffix :
  last_dot_suffix s = Some suffix -> exists rest, suffix = String "." rest.
Proof.
  induction s as [| c r IH]; intros H; [discriminate H |].
  cbn [last_dot_suffix] in H.
  destruct (last_dot_suffix r) as [suffix' |].
  - inversion H; subst. now apply IH.
  - destruct (Ascii.eqb c ".") eqn:E; [| discriminate H].
    apply Ascii.eqb_eq in E. inversion H; subst. now exists r.
Qed.

(** [rfind], the slices and the loop of [_splitext] in terms of the last
    dot of the name. *)
Lemma rfind_dot_spec s :
  match last_dot_suffix s with
  | None => forall i, Path.rfind_from "." s i = -1
  | Some suffix =>
      exists d : nat,
        (d < String.length s)%nat /\
        (forall i, 0 <= i -> Path.rfind_from "." s i = i + Z.of_nat d) /\
        substring d (String.length s - d) s = suffix /\
        (forall fuel, (d <= fuel)%nat ->
           Path.scan_stem fuel s 0 (Z.of_nat d) = stem_has_non_dot s)
  end.
Proof.
  induction s as [| c r IH]; [intros i; reflexivity |].
  cbn [last_dot_suffix stem_has_non_dot].
  destruct (last_dot_suffix r) as [suffix |].
  - destruct IH as (d & Hd & Hfind & Hsub & Hscan).
    exists (S d). cbn [String.length]. split; [lia |]. split; [| split].
    + intros i Hi. cbn [Path.rfind_from]. rewrite Hfind by lia.
      destruct (0 <=? i + 1 + Z.of_nat d) eqn:E; [lia |].
      apply Z.leb_gt in E. lia.
    + cbn [substring Nat.sub]. exact Hsub.
    + intros fuel Hfuel. destruct fuel as [| f]; [lia |].
      cbn [Path.scan_stem].
      assert (E0 : (0 <? Z.of_nat (S d)) = true) by (apply Z.ltb_lt; lia).
      rewrite E0. unfold Path.not_dot_at at 1. cbn [Z.to_nat String.get].
      destruct (Ascii.eqb c "."); cbn [negb orb]; [| reflexivity].
      replace (Z.of_nat (S d)) with (Z.of_nat d + 1) by lia.
      rewrite scan_stem_shift by lia. apply Hscan. lia.
  - destruct (Ascii.eqb c ".") eqn:E.
    + exists O. cbn [String.length]. split; [lia |]. split; [| split].
      * intros i Hi. cbn [Path.rfind_from]. rewrite IH, E.
        change (0 <=? -1) with false. cbn [Z.of_nat]. lia.
      * rewrite Nat.sub_0_r.
        apply (substring_0_all (String c r)).
      * intros fuel _. now destruct fuel.
    + intros i. cbn [Path.rfind_from]. rewrite IH, E. reflexivity.
Qed.

Lemma lower_starts_with_dot rest :
  Str.lower (String "." rest) = String "." (Str.lower rest).
Proof. reflexivity. Qed.

(** The category of a name without separator, whatever the lower-casing. *)
Lemma extension_by_stem lower file :
  has_char "/" file = false ->
  extension_with lower file = category_after_stem lower file.
Proof.
  intros Hsep.
  unfold extension_with, Path.splitext, Path.rfind, category_after_stem.
  rewrite (rfind_from_absent "/" file 0 Hsep).
  pose proof (rfind_dot_spec file) as H.
  destruct (last_dot_suffix file) as [suffix |] eqn:El.
  - destruct H as (d & Hd & Hfind & Hsub & Hscan).
    rewrite (Hfind 0) by lia. cbn [Z.add].
    assert (E : (-1 <? Z.of_nat d) = true) by (apply Z.ltb_lt; lia).
    rewrite E. cbn [andb]. change (-1 + 1) with 0.
    rewrite Hscan by lia.
    destruct (stem_has_non_dot file); [| reflexivity].
    rewrite Nat2Z.id, Hsub.
    destruct (last_dot_suffix_starts_with_dot _ _ El) as [rest ->].
    reflexivity.
  - rewrite (H 0). reflexivity.
Qed.

End Splitext.

(* ================================================================== *)
(** * The walk and the loop *)

Section WalkFacts.

Variable keep : string -> bool.

Lemma os_walk_dir root es :
  os_walk keep root (Dir es)
  = mkVisit root (file_entries es) :: walk_entries keep root es.
Proof.
  cbn [os_walk]. f_equal. unfold walk_entries.
  induction es as [| [name c] r IH]; [reflexivity |].
  cbn [flat_map fst snd]. f_equal. exact IH.
Qed.

Lemma walk_entries_app root es1 es2 :
  walk_entries keep root (es1 ++ es2)
  = (walk_entries keep root es1 ++ walk_entries keep root es2)%list.
Proof. apply flat_map_app. Qed.

Lemma file_entries_app es1 es2 :
  file_entries (es1 ++ es2) = (file_entries es1 ++ file_entries es2)%list.
Proof.
  induction es1 as [| [name c] r IH]; [reflexivity |].
  destruct c; cbn [file_entries app]; rewrite ?IH; reflexivity.
Qed.

Lemma os_walk_not_dir root n :
  (forall es, n <> Dir es) -> os_walk keep root n = [].
Proof. destruct n; intros H; try reflexivity. now destruct (H entries). Qed.

End WalkFacts.

Section LoopFacts.

Lemma sum_app l1 l2 : sum (l1 ++ l2) = sum l1 + sum l2.
Proof.
  induction l1 as [| x l1 IH]; cbn [sum app fold_right] in *; [reflexivity |].
  fold (sum (l1 ++ l2)). fold (sum l1). lia.
Qed.

Lemma advance_nil s : advance s 0 [] = s.
Proof.
  destruct s. unfold advance. cbn. f_equal; try lia. apply app_nil_r.
Qed.

Lemma advance_advance s d1 c1 d2 c2 :
  advance (advance s d1 c1) d2 c2 = advance s (d1 + d2) (c1 ++ c2).
Proof.
  unfold advance. cbn [Loop.total_size Loop.file_count Loop.dir_count
                       Loop.files_by_extension Loop.largest_files].
  rewrite !map_app, sum_app, length_app, fold_left_app, Nat2Z.inj_add.
  rewrite <- app_assoc. f_equal; lia.
Qed.

(** One file of the loop. *)
Lemma scan_file_advance root s f :
  scan_file root s f = advance s 0 (counted_of_visit (mkVisit root [f])).
Proof.
  destruct f as [file getsize]. unfold scan_file, counted_of_visit.
  cbn [v_files v_root flat_map fst snd].
  destruct (Str.mem file ignore_files); [now rewrite advance_nil |].
  destruct getsize as [n |]; [| now rewrite advance_nil].
  unfold advance. cbn. unfold count_extension.
  f_equal; lia.
Qed.

Lemma counted_of_visit_cons root f files :
  counted_of_visit (mkVisit root (f :: files))
  = (counted_of_visit (mkVisit root [f])
     ++ counted_of_visit (mkVisit root files))%list.
Proof.
  unfold counted_of_visit. cbn [v_files v_root flat_map].
  now rewrite app_nil_r.
Qed.

(** [for file in files] *)
Lemma scan_files_advance root files : forall s,
  fold_left (scan_file root) files s
  = advance s 0 (counted_of_visit (mkVisit root files)).
Proof.
  induction files as [| f files IH]; intros s.
  - now rewrite advance_nil.
  - cbn [fold_left]. rewrite IH, scan_file_advance, advance_advance.
    now rewrite (counted_of_visit_cons root f files).
Qed.

(** One directory of the walk. *)
Lemma scan_dir_advance s v : scan_dir s v = advance s 1 (counted_of_visit v).
Proof.
  destruct v as [root files]. unfold scan_dir. cbn [v_root v_files].
  rewrite scan_files_advance. unfold advance. cbn. f_equal; lia.
Qed.

(** [for root, dirs, files in os.walk(start_path)] *)
Lemma scan_visits_advance visits : forall s,
  fold_left scan_dir visits s
  = advance s (Z.of_nat (List.length visits))
      (flat_map counted_of_visit visits).
Proof.
  induction visits as [| v visits IH]; intros s.
  - now rewrite advance_nil.
  - cbn [fold_left flat_map List.length]. rewrite IH, scan_dir_advance.
    rewrite advance_advance. f_equal. lia.
Qed.

Lemma scan_loop_advance start :
  scan_loop start
  = advance Loop.init
      (Z.of_nat (List.length (os_walk_top keep_dir start)))
      (counted_files start).
Proof. apply scan_visits_advance. Qed.

End LoopFacts.

(* ================================================================== *)
(** * The descending stable sort *)

Section SortFacts.

Context {A : Type}.
Variable key : A -> Z.

Lemma insert_desc_perm x l : Permutation (insert_desc key x l) (x :: l).
Proof.
  induction l as [| y r IH]; cbn [insert_desc]; [reflexivity |].
  destruct (key x <? key y); [| reflexivity].
  rewrite IH. apply perm_swap.
Qed.

Lemma sort_desc_perm l : Permutation (sort_desc key l) l.
Proof.
  induction l as [| x r IH]; cbn [sort_desc]; [reflexivity |].
  rewrite insert_desc_perm. now apply perm_skip.
Qed.

Lemma sort_desc_length l : List.length (sort_desc key l) = List.length l.
Proof. apply Permutation_length, sort_desc_perm. Qed.

Lemma insert_desc_sorted x l :
  StronglySorted (key_desc key) l ->
  StronglySorted (key_desc key) (insert_desc key x l).
Proof.
  induction l as [| y r IH]; intros Hs; cbn [insert_desc].
  - constructor; constructor.
  - inversion Hs as [| y' r' Hr Hall]; subst.
    destruct (key x <? key y) eqn:E.
    + apply Z.ltb_lt in E. constructor; [now apply IH |].
      eapply Permutation_Forall; [symmetry; apply insert_desc_perm |].
      constructor; [unfold key_desc; lia | exact Hall].
    + apply Z.ltb_ge in E. constructor; [exact Hs |].
      constructor; [exact E |].
      eapply Forall_impl; [| exact Hall].
      unfold key_desc. intros z Hz. lia.
Qed.

Lemma sort_desc_sorted l : StronglySorted (key_desc key) (sort_desc key l).
Proof.
  induction l as [| x r IH]; cbn [sort_desc]; [constructor |].
  now apply insert_desc_sorted.
Qed.

Lemma insert_desc_filter k x l :
  filter (fun y => key y =? k) (insert_desc key x l)
  = filter (fun y => key y =? k) (x :: l).
Proof.
  induction l as [| y r IH]; [reflexivity |].
  cbn [insert_desc]. destruct (key x <? key y) eqn:E; [| reflexivity].
  apply Z.ltb_lt in E. cbn [filter] in *. rewrite IH.
  destruct (key y =? k) eqn:Ey, (key x =? k) eqn:Ex; try reflexivity.
  apply Z.eqb_eq in Ey, Ex. lia.
Qed.

(** The sort is stable: the elements of one key keep their order. *)
Lemma sort_desc_stable k l :
  filter (fun y => key y =? k) (sort_desc key l)
  = filter (fun y => key y =? k) l.
Proof.
  induction l as [| x r IH]; [reflexivity |].
  cbn [sort_desc]. rewrite insert_desc_filter. cbn [filter].
  now rewrite IH.
Qed.

Lemma firstn_incl n : forall (l : list A) x, In x (firstn n l) -> In x l.
Proof.
  induction n as [| n IH]; intros l x Hx; [destruct Hx |].
  destruct l as [| y r]; [destruct Hx |].
  cbn [firstn] in Hx. destruct Hx as [-> | Hx]; [now left |].
  right. now apply IH.
Qed.

Lemma firstn_sorted (R : A -> A -> Prop) n : forall l,
  StronglySorted R l -> StronglySorted R (firstn n l).
Proof.
  induction n as [| n IH]; intros l Hs; [constructor |].
  destruct l as [| x r]; [constructor |].
  inversion Hs as [| x' r' Hr Hall]; subst. cbn [firstn].
  constructor; [now apply IH |].
  apply Forall_forall. intros y Hy.
  rewrite Forall_forall in Hall. apply Hall.
  eapply firstn_incl; exact Hy.
Qed.

End SortFacts.

Lemma map_sorted {A B} (R : A -> A -> Prop) (R' : B -> B -> Prop) (f : A -> B) :
  (forall a b, R a b -> R' (f a) (f b)) ->
  forall l, StronglySorted R l -> StronglySorted R' (map f l).
Proof.
  intros Hf l Hs. induction Hs as [| x r Hr IH Hall]; cbn [map].
  - constructor.
  - constructor; [exact IH |].
    apply Forall_forall. intros y Hy. apply in_map_iff in Hy.
    destruct Hy as (a & <- & Ha). apply Hf.
    rewrite Forall_forall in Hall. now apply Hall.
Qed.

(* ================================================================== *)
(** * The scanner *)

Section Histogram.

Lemma sum_values_set d : forall k,
  sum (dict_values (dict_set d k (dict_get d k 0 + 1)))
  = sum (dict_values d) + 1.
Proof.
  induction d as [| [k' v'] r IH]; intros k.
  - reflexivity.
  - cbn [dict_set dict_get]. destruct (String.eqb k k').
    + cbn [dict_values map snd sum fold_right]. lia.
    + cbn [dict_values map snd sum fold_right] in *.
      specialize (IH k). unfold dict_values, sum in IH. lia.
Qed.

Lemma sum_values_count exts : forall d,
  sum (dict_values (fold_left count_extension exts d))
  = sum (dict_values d) + Z.of_nat (List.length exts).
Proof.
  induction exts as [| e r IH]; intros d.
  - cbn [fold_left List.length]. lia.
  - cbn [fold_left List.length]. rewrite IH. unfold count_extension.
    rewrite sum_values_set. lia.
Qed.

End Histogram.

Section CountedFiles.

Lemma file_entries_In es : forall file sz,
  In (file, sz) (file_entries es) <-> In (file, File sz) es.
Proof.
  induction es as [| [name c] r IH]; intros file sz; [reflexivity |].
  destruct c as [sz' | es' | | ]; cbn [file_entries In]; rewrite ?IH;
    split; intros H.
  - destruct H as [H | H]; [left; congruence | now right].
  - destruct H as [H | H]; [left; congruence | now right].
  - now right.
  - destruct H as [H | H]; [discriminate | exact H].
  - now right.
  - destruct H as [H | H]; [discriminate | exact H].
  - now right.
  - destruct H as [H | H]; [discriminate | exact H].
Qed.

Lemma counted_of_visit_In root files r f size :
  In (r, f, size) (counted_of_visit (mkVisit root files)) <->
  r = root /\ Str.mem f ignore_files = false /\
  exists n, size = Z.of_N n /\ In (f, Some n) files.
Proof.
  unfold counted_of_visit. cbn [v_files v_root]. rewrite in_flat_map.
  split.
  - intros ([file sz] & Hin & Hx). cbn [fst snd] in Hx.
    destruct (Str.mem file ignore_files) eqn:E; [destruct Hx |].
    destruct sz as [n |]; [| destruct Hx].
    destruct Hx as [Hx | []]. inversion Hx; subst.
    repeat split; try assumption. now exists n.
  - intros (-> & Hm & n & -> & Hin).
    exists (f, Some n). split; [exact Hin |]. cbn [fst snd].
    rewrite Hm. now left.
Qed.

(** Every file the loop counts is a counted file of the tree. *)
Lemma counted_walk_sound n : forall root r f size,
  In (r, f, size) (flat_map counted_of_visit (os_walk keep_dir root n)) ->
  counted_in root n (r ++ [f]) size.
Proof.
  induction n as [sz | es IH | | ] using node_tree_ind;
    intros root r f size Hin; try destruct Hin.
  rewrite os_walk_dir in Hin. cbn [flat_map] in Hin.
  apply in_app_or in Hin. destruct Hin as [Hin | Hin].
  - apply counted_of_visit_In in Hin.
    destruct Hin as (-> & Hm & n & -> & Hin).
    apply file_entries_In in Hin. now apply counted_here.
  - apply in_flat_map in Hin. destruct Hin as (v & Hv & Hin).
    unfold walk_entries in Hv. apply in_flat_map in Hv.
    destruct Hv as ([name c] & He & Hv). cbn [fst snd] in Hv.
    destruct (is_dir c && keep_dir name) eqn:E; [| destruct Hv].
    apply andb_prop in E. destruct E as [_ Hk].
    rewrite Forall_forall in IH. specialize (IH _ He). cbn [snd] in IH.
    apply counted_below with (name := name) (c := c); [exact He | |].
    + unfold keep_dir in Hk. now destruct (Str.mem name ignore_dirs).
    + apply IH. apply in_flat_map. now exists v.
Qed.

(** Every counted file of the tree is met by the loop. *)
Lemma counted_walk_complete root n p size :
  counted_in root n p size ->
  exists r f,
    p = (r ++ [f])%list /\
    In (r, f, size) (flat_map counted_of_visit (os_walk keep_dir root n)).
Proof.
  induction 1 as [root es file n Hin Hm
                 | root es name c p size Hin Hm Hc IH].
  - exists root, file. split; [reflexivity |].
    rewrite os_walk_dir. cbn [flat_map]. apply in_or_app. left.
    apply counted_of_visit_In. repeat split; try assumption.
    exists n. split; [reflexivity |]. now apply file_entries_In.
  - destruct IH as (r & f & -> & IH). exists r, f. split; [reflexivity |].
    rewrite os_walk_dir. cbn [flat_map]. apply in_or_app. right.
    apply in_flat_map in IH. destruct IH as (v & Hv & IH).
    apply in_flat_map. exists v. split; [| exact IH].
    unfold walk_entries. apply in_flat_map. exists (name, c).
    split; [exact Hin |]. cbn [fst snd].
    assert (Hd : is_dir c = true) by (inversion Hc; reflexivity).
    unfold keep_dir. rewrite Hd, Hm. exact Hv.
Qed.

End CountedFiles.

Section Result.

Variable start : option node.
Variable now : string.

Lemma result_file_count :
  file_count (get_repo_stats start now)
  = Z.of_nat (List.length (counted_files start)).
Proof.
  unfold get_repo_stats. cbn [file_count]. rewrite scan_loop_advance.
  reflexivity.
Qed.

Lemma result_directory_count :
  directory_count (get_repo_stats start now)
  = Z.of_nat (List.length (os_walk_top keep_dir start)) - 1.
Proof.
  unfold get_repo_stats. cbn [directory_count]. rewrite scan_loop_advance.
  reflexivity.
Qed.

Lemma result_files_by_extension :
  files_by_extension (get_repo_stats start now)
  = fold_left count_extension
      (map (fun x : list string * string * Z => extension (snd (fst x)))
         (counted_files start)) [].
Proof.
  unfold get_repo_stats. cbn [files_by_extension]. rewrite scan_loop_advance.
  reflexivity.
Qed.

Lemma result_largest_files :
  largest_files (get_repo_stats start now)
  = map (fun x : list string * Z =>
           mkInfo (Path.relpath (fst x)) (snd x) (format_size (PyInt (snd x))))
      (firstn 10
         (sort_desc snd
            (map (fun x : list string * string * Z =>
                    ((fst (fst x) ++ [snd (fst x)])%list, snd x))
               (counted_files start)))).
Proof.
  unfold get_repo_stats. cbn [largest_files]. rewrite scan_loop_advance.
  cbn [advance Loop.largest_files Loop.init app].
  apply map_ext. now intros [p size].
Qed.

End Result.

(** C6.  For every directory tree scanned (and every start path, listable
    or not), the values of [files_by_extension] in the result add up to
    [file_count]. *)
Theorem files_by_extension_sum_is_file_count (start : option node)
  (now : string) :
  sum (dict_values (files_by_extension (get_repo_stats start now)))
  = file_count (get_repo_stats start now).
Proof.
  rewrite result_files_by_extension, result_file_count, sum_values_count.
  rewrite length_map. reflexivity.
Qed.

(** C7.  For every directory tree scanned, [largest_files] of the result
    has [min(file_count, 10)] entries, their [size_bytes] never increase
    from one entry to the next, and every entry is a counted file of the
    tree: its path, its size and the size as [format_size] renders it. *)
Theorem largest_files_are_top_ten_counted (start : option node)
  (now : string) :
  let r := get_repo_stats start now in
  Z.of_nat (List.length (largest_files r)) = Z.min (file_count r) 10 /\
  StronglySorted (key_desc size_bytes) (largest_files r) /\
  (forall info, In info (largest_files r) ->
     exists t p,
       start = Some t /\
       counted_in [] t p (size_bytes info) /\
       path info = Path.relpath p /\
       size_human info = format_size (PyInt (size_bytes info))).
Proof.
  cbv zeta. rewrite result_largest_files, result_file_count.
  split; [| split].
  - rewrite length_map, length_firstn, sort_desc_length, length_map. lia.
  - apply map_sorted with (R := key_desc snd); [intros a b H; exact H |].
    apply firstn_sorted, sort_desc_sorted.
  - intros info Hin. apply in_map_iff in Hin.
    destruct Hin as ([p size] & <- & Hin). cbn [fst snd size_bytes path
                                                size_human].
    apply firstn_incl in Hin.
    apply (Permutation_in _ (sort_desc_perm snd _)) in Hin.
    apply in_map_iff in Hin. destruct Hin as ([[r f] size'] & E & Hin).
    cbn [fst snd] in E. inversion E; subst p size'. clear E.
    unfold counted_files in Hin.
    destruct start as [t |]; [| destruct Hin].
    exists t, (r ++ [f])%list. repeat split.
    now apply counted_walk_sound.
Qed.

Lemma sorted_app_inv {A} (R : A -> A -> Prop) (l1 l2 : list A) :
  StronglySorted R (l1 ++ l2) ->
  forall x y, In x l1 -> In y l2 -> R x y.
Proof.
  induction l1 as [| a l1 IH]; intros Hs x y Hx Hy; [destruct Hx |].
  cbn [app] in Hs. inversion Hs as [| a' l' Hl Hall]; subst.
  destruct Hx as [-> | Hx].
  - rewrite Forall_forall in Hall. apply Hall, in_or_app. now right.
  - now apply IH.
Qed.

(** The ten entries kept are the largest: a counted file of the tree is
    one of the entries of [largest_files], or no larger than each of
    them. *)
Theorem largest_files_dominate_the_rest
  (t : node) (now : string) (p : list string) (size : Z) :
  counted_in [] t p size ->
  (exists info,
     In info (largest_files (get_repo_stats (Some t) now)) /\
     path info = Path.relpath p /\ size_bytes info = size) \/
  (forall info,
     In info (largest_files (get_repo_stats (Some t) now)) ->
     size <= size_bytes info).
Proof.
  intros Hc. rewrite result_largest_files.
  destruct (counted_walk_complete [] t p size Hc) as (r & f & -> & Hin).
  fold (counted_files (Some t)) in Hin.
  set (all := map (fun x : list string * string * Z =>
                     ((fst (fst x) ++ [snd (fst x)])%list, snd x))
                (counted_files (Some t))).
  assert (Hall : In ((r ++ [f])%list, size) (sort_desc snd all)).
  { apply (Permutation_in _ (Permutation_sym (sort_desc_perm snd all))).
    unfold all. apply in_map_iff. now exists (r, f, size). }
  rewrite <- (firstn_skipn 10 (sort_desc snd all)) in Hall.
  apply in_app_or in Hall. destruct Hall as [Hfirst | Hrest].
  - left. exists (mkInfo (Path.relpath (r ++ [f])) size
                    (format_size (PyInt size))).
    split; [| split; reflexivity].
    apply in_map_iff. now exists ((r ++ [f])%list, size).
  - right. intros info Hinfo. apply in_map_iff in Hinfo.
    destruct Hinfo as ([q sz] & <- & Hq). cbn [size_bytes snd].
    pose proof (sort_desc_sorted snd all) as Hs.
    rewrite <- (firstn_skipn 10 (sort_desc snd all)) in Hs.
    exact (sorted_app_inv _ _ _ Hs _ _ Hq Hrest).
Qed.

Lemma largest_files_dominate_the_rest_witness :
  (exists info,
     In info (largest_files (get_repo_stats (Some scenario) "")) /\
     path info = Path.relpath ["README"] /\ size_bytes info = 10) \/
  (forall info,
     In info (largest_files (get_repo_stats (Some scenario) "")) ->
     10 <= size_bytes info).
Proof.
  apply (largest_files_dominate_the_rest scenario "" ["README"] 10).
  apply (counted_here [] _ "README" 10%N); [| reflexivity].
  cbn. auto.
Defined.

(** Files of equal size stand in [largest_files] in the order the walk met
    them: before the cut to ten entries, the files of each size are in
    walk order. *)
Theorem equal_sizes_keep_walk_order (start : option node) (size : Z) :
  filter (fun x : list string * Z => snd x =? size)
    (sort_desc snd (Loop.largest_files (scan_loop start)))
  = filter (fun x : list string * Z => snd x =? size)
      (Loop.largest_files (scan_loop start)).
Proof. apply sort_desc_stable. Qed.

(** The totals of the result: [total_size_bytes] is the sum of the sizes
    of the counted files, [file_count] their number, [total_items] is
    [file_count + directory_count], and [total_size_human] is the total as
    [format_size] renders it. *)
Theorem totals_of_counted_files (start : option node) (now : string) :
  let r := get_repo_stats start now in
  total_size_bytes r = sum (map snd (counted_files start)) /\
  file_count r = Z.of_nat (List.length (counted_files start)) /\
  total_items r = file_count r + directory_count r /\
  total_size_human r = format_size (PyInt (total_size_bytes r)).
Proof.
  cbv zeta. unfold get_repo_stats.
  cbn [total_size_bytes file_count total_items directory_count
       total_size_human].
  rewrite !scan_loop_advance.
  cbn [advance Loop.total_size Loop.file_count Loop.dir_count Loop.init].
  repeat split; lia.
Qed.

(** Two scans of the same tree differ in the timestamp only. *)
Theorem statistics_do_not_depend_on_the_clock
  (start : option node) (now1 now2 : string) :
  statistics (get_repo_stats start now1)
  = statistics (get_repo_stats start now2).
Proof. reflexivity. Qed.

Lemma file_count_nonneg (start : option node) (now : string) :
  0 <= file_count (get_repo_stats start now).
Proof. rewrite result_file_count. lia. Qed.

(** C2.  [file_count] is never negative.  [directory_count] is
    [dir_count - 1]: it is not negative when the start path is a directory
    that can be listed, and it is -1 for every other start path (missing,
    unreadable, not a directory), where the walk yields nothing. *)
Theorem directory_count_of_start (start : option node) (now : string) :
  0 <= file_count (get_repo_stats start now) /\
  match start with
  | Some (Dir _) => 0 <= directory_count (get_repo_stats start now)
  | _ => directory_count (get_repo_stats start now) = -1
  end.
Proof.
  split; [apply file_count_nonneg |]. rewrite result_directory_count.
  destruct start as [[sz | es | | ] |]; try reflexivity.
  cbn [os_walk_top]. rewrite os_walk_dir. cbn [List.length]. lia.
Qed.

(** C3, as the claim states it, fails: an empty directory has
    [file_count = 0] and its [average_file_size] is not ["0.00 B"]. *)
Lemma average_of_no_files_is_not_formatted :
  ~ (forall start now,
       file_count (get_repo_stats start now) = 0 ->
       average_file_size (get_repo_stats start now) = "0.00 B").
Proof.
  intros H. specialize (H (Some (Dir [])) "" eq_refl). discriminate H.
Qed.

(** C3, amended.  [average_file_size] is [total_size_bytes / file_count]
    (true division) rendered by [format_size], and when [file_count] is 0
    it is the literal ["0 B"]. *)
Theorem average_file_size_value (start : option node) (now : string) :
  let r := get_repo_stats start now in
  average_file_size r =
    if file_count r =? 0 then "0 B"
    else format_size (PyFloat (truediv (total_size_bytes r) (file_count r))).
Proof.
  cbv zeta.
  pose proof (file_count_nonneg start now) as Hc.
  revert Hc. unfold get_repo_stats.
  cbn [average_file_size file_count total_size_bytes]. intros Hc.
  destruct (Loop.file_count (scan_loop start) =? 0) eqn:E.
  - apply Z.eqb_eq in E. rewrite E. reflexivity.
  - apply Z.eqb_neq in E.
    destruct (0 <? Loop.file_count (scan_loop start)) eqn:E'; [reflexivity |].
    apply Z.ltb_ge in E'. lia.
Qed.

(* ================================================================== *)
(** * Entries that do not count *)

Section Removal.

Lemma counted_of_visit_app root f1 f2 :
  counted_of_visit (mkVisit root (f1 ++ f2))
  = (counted_of_visit (mkVisit root f1)
     ++ counted_of_visit (mkVisit root f2))%list.
Proof. unfold counted_of_visit. cbn [v_files v_root]. apply flat_map_app. Qed.

Lemma ignored_dir_inert name c : ignored_dir name c -> inert name c.
Proof.
  intros [Hd Hm]. split; intros root.
  - unfold keep_dir. rewrite Hm. now rewrite andb_false_r.
  - destruct c; [discriminate Hd | reflexivity ..].
Qed.

Lemma ignored_file_inert name c : ignored_file name c -> inert name c.
Proof.
  intros [Hd Hm]. split; intros root.
  - now rewrite Hd.
  - destruct c as [sz | | |]; try discriminate Hd.
    unfold counted_of_visit. cbn [file_entries v_files flat_map fst].
    now rewrite Hm.
Qed.

Lemma unreadable_dir_inert name c : unreadable_dir name c -> inert name c.
Proof.
  intros ->. split; intros root; [| reflexivity].
  now destruct (is_dir Unreadable && keep_dir name).
Qed.

Lemma remove_entry_is_dir P c c' :
  remove_entry P c c' -> exists es, c' = Dir es.
Proof. destruct 1; eexists; reflexivity. Qed.

(** Without an inert entry the walk visits as many directories and the loop
    counts the same files in the same order. *)
Lemma remove_inert_walk (P : string -> node -> Prop) :
  (forall name c, P name c -> inert name c) ->
  forall t t', remove_entry P t t' ->
  forall root,
    List.length (os_walk keep_dir root t)
    = List.length (os_walk keep_dir root t') /\
    flat_map counted_of_visit (os_walk keep_dir root t)
    = flat_map counted_of_visit (os_walk keep_dir root t').
Proof.
  intros HP t t' Hr.
  induction Hr as [es1 name c es2 Hc | es1 name c c' es2 Hr IH]; intros root.
  - destruct (HP _ _ Hc) as [Hwalk Hfiles].
    rewrite !os_walk_dir. cbn [List.length flat_map].
    replace (es1 ++ (name, c) :: es2)%list
      with (es1 ++ [(name, c)] ++ es2)%list by reflexivity.
    rewrite !walk_entries_app, !file_entries_app, !counted_of_visit_app.
    assert (E : walk_entries keep_dir root [(name, c)] = []).
    { unfold walk_entries. cbn [flat_map fst snd].
      now rewrite Hwalk. }
    rewrite E, Hfiles. split; reflexivity.
  - destruct (remove_entry_is_dir _ _ _ Hr) as [es' ->].
    assert (Hd : exists es, c = Dir es) by (inversion Hr; eexists; reflexivity).
    destruct Hd as [es ->].
    rewrite !os_walk_dir. cbn [List.length flat_map].
    replace (es1 ++ (name, Dir es) :: es2)%list
      with (es1 ++ [(name, Dir es)] ++ es2)%list by reflexivity.
    replace (es1 ++ (name, Dir es') :: es2)%list
      with (es1 ++ [(name, Dir es')] ++ es2)%list by reflexivity.
    rewrite !walk_entries_app, !file_entries_app.
    cbn [file_entries app].
    unfold walk_entries at 2 5 8 11. cbn [flat_map fst snd is_dir andb].
    destruct (IH (root ++ [name])%list) as [IHlen IHcf].
    destruct (keep_dir name); [| split; reflexivity].
    rewrite !app_nil_r, !flat_map_app, !length_app, IHlen, IHcf.
    split; reflexivity.
Qed.

Lemma get_repo_stats_of_walk start start' now :
  List.length (os_walk_top keep_dir start)
  = List.length (os_walk_top keep_dir start') ->
  counted_files start = counted_files start' ->
  get_repo_stats start now = get_repo_stats start' now.
Proof.
  intros Hlen Hcf. unfold get_repo_stats.
  rewrite !scan_loop_advance, Hlen, Hcf. reflexivity.
Qed.

Lemma remove_inert_stats (P : string -> node -> Prop) :
  (forall name c, P name c -> inert name c) ->
  forall t t' now, remove_entry P t t' ->
  get_repo_stats (Some t) now = get_repo_stats (Some t') now.
Proof.
  intros HP t t' now Hr.
  destruct (remove_inert_walk P HP t t' Hr []) as [Hlen Hcf].
  now apply get_repo_stats_of_walk.
Qed.

End Removal.

(** A counted file among the entries of a visited directory is one more
    element of the list of counted files. *)
Lemma remove_counted_file_walk n t t' :
  remove_visited (readable_file n) t t' ->
  forall root,
    List.length (os_walk keep_dir root t)
    = List.length (os_walk keep_dir root t') /\
    exists l1 x l2,
      flat_map counted_of_visit (os_walk keep_dir root t)
      = (l1 ++ x :: l2)%list /\
      flat_map counted_of_visit (os_walk keep_dir root t')
      = (l1 ++ l2)%list /\
      snd x = Z.of_N n.
Proof.
  intros Hr.
  induction Hr as [es1 name c es2 [-> Hm] | es1 name c c' es2 Hk Hr IH];
    intros root.
  - rewrite !os_walk_dir. cbn [List.length flat_map].
    replace (es1 ++ (name, File (Some n)) :: es2)%list
      with (es1 ++ [(name, File (Some n))] ++ es2)%list by reflexivity.
    rewrite !walk_entries_app, !file_entries_app, !counted_of_visit_app.
    assert (E : counted_of_visit
                  (mkVisit root (file_entries [(name, File (Some n))]))
                = [(root, name, Z.of_N n)]).
    { unfold counted_of_visit. cbn [file_entries v_files v_root flat_map
                                    fst snd]. now rewrite Hm. }
    rewrite E. cbn [walk_entries flat_map fst snd is_dir andb app].
    split; [reflexivity |].
    exists (counted_of_visit (mkVisit root (file_entries es1))),
      (root, name, Z.of_N n),
      (counted_of_visit (mkVisit root (file_entries es2))
       ++ flat_map counted_of_visit
            (walk_entries keep_dir root es1
             ++ walk_entries keep_dir root es2))%list.
    rewrite <- !app_assoc. repeat split; reflexivity.
  - assert (Hd : exists es es', c = Dir es /\ c' = Dir es')
      by (inversion Hr; do 2 eexists; split; reflexivity).
    destruct Hd as (es & es' & -> & ->).
    rewrite !os_walk_dir. cbn [List.length flat_map].
    replace (es1 ++ (name, Dir es) :: es2)%list
      with (es1 ++ [(name, Dir es)] ++ es2)%list by reflexivity.
    replace (es1 ++ (name, Dir es') :: es2)%list
      with (es1 ++ [(name, Dir es')] ++ es2)%list by reflexivity.
    rewrite !walk_entries_app, !file_entries_app.
    cbn [file_entries app].
    unfold walk_entries at 2 5 8 11. cbn [flat_map fst snd is_dir andb].
    rewrite Hk, !app_nil_r.
    destruct (IH (root ++ [name])%list) as (IHlen & l1 & x & l2 & E & E' & Hx).
    rewrite !flat_map_app, !length_app, IHlen, E, E'.
    split; [reflexivity |].
    exists (counted_of_visit (mkVisit root (file_entries es1 ++ file_entries es2))
            ++ flat_map counted_of_visit (walk_entries keep_dir root es1)
            ++ l1)%list, x,
      (l2 ++ flat_map counted_of_visit (walk_entries keep_dir root es2))%list.
    rewrite <- !app_assoc. repeat split; try reflexivity. exact Hx.
Qed.

(** C8.  A directory entry that is a directory with an ignored name adds
    nothing, whatever lies beneath it: the scan of a tree gives the same
    result as the scan of the tree without that entry, at any depth, so
    [file_count], [directory_count], [total_size_bytes] and
    [files_by_extension] get nothing from it.  The same holds for a file
    with an ignored name.  A file of a visited directory whose name is not
    ignored and whose size can be read counts for one file and for its
    size, whatever its siblings are. *)
Theorem ignored_entries_contribute_nothing :
  (forall t t' now,
     remove_entry ignored_dir t t' ->
     get_repo_stats (Some t) now = get_repo_stats (Some t') now) /\
  (forall t t' now,
     remove_entry ignored_file t t' ->
     get_repo_stats (Some t) now = get_repo_stats (Some t') now) /\
  (forall t t' n now,
     remove_visited (readable_file n) t t' ->
     file_count (get_repo_stats (Some t) now)
     = file_count (get_repo_stats (Some t') now) + 1 /\
     total_size_bytes (get_repo_stats (Some t) now)
     = total_size_bytes (get_repo_stats (Some t') now) + Z.of_N n).
Proof.
  split; [| split].
  - intros t t' now. apply remove_inert_stats. exact ignored_dir_inert.
  - intros t t' now. apply remove_inert_stats. exact ignored_file_inert.
  - intros t t' n now Hr.
    destruct (remove_counted_file_walk n t t' Hr [])
      as (_ & l1 & x & l2 & E & E' & Hx).
    unfold get_repo_stats. cbn [file_count total_size_bytes].
    rewrite !scan_loop_advance. cbn [advance Loop.total_size Loop.file_count
                                       Loop.init].
    unfold counted_files. cbn [os_walk_top]. rewrite E, E'.
    rewrite !length_app, !map_app, !sum_app. cbn [List.length map].
    rewrite Hx. change (sum (Z.of_N n :: ?l)) with (Z.of_N n + sum l).
    lia.
Qed.

(** A file whose size cannot be read is passed over: the scan of a tree
    gives the same result as the scan of the tree without that file. *)
Theorem unreadable_file_is_skipped (t t' : node) (now : string) :
  remove_entry unreadable_file t t' ->
  get_repo_stats (Some t) now = get_repo_stats (Some t') now.
Proof.
  apply remove_inert_stats. intros name c ->.
  split; intros root; [reflexivity |].
  unfold counted_of_visit. cbn [file_entries v_files flat_map fst snd].
  now destruct (Str.mem name ignore_files).
Qed.

Lemma unreadable_file_is_skipped_witness :
  get_repo_stats (Some (Dir [("gone.txt", File None)])) ""
  = get_repo_stats (Some (Dir [])) "".
Proof.
  apply unreadable_file_is_skipped.
  exact (remove_here unreadable_file [] "gone.txt" (File None) [] eq_refl).
Defined.

(* ================================================================== *)
(** * Writing the reports *)

Section WriteFacts.

Variable name : string.

Lemma disk_get_pushed c d oe sp co :
  disk_get (mkWorld ((name, c) :: d) oe sp co) name = Some c.
Proof. unfold disk_get. cbn [disk find fst snd]. now rewrite String.eqb_refl. Qed.

Lemma write_each_cons c r w :
  write_each name (c :: r) w
  = match write name c w with
    | (w1, inl _) => write_each name r w1
    | (w1, inr e) => (w1, inr e)
    end.
Proof. reflexivity. Qed.

Lemma write_unlimited c w old :
  disk_get w name = Some old -> space w = None ->
  write name c w
  = (mkWorld ((name, old ++ c) :: disk w) (open_error w) None (console w),
     inl tt).
Proof. intros Hold Hsp. unfold write. now rewrite Hold, Hsp. Qed.

Lemma write_limited c w old k :
  disk_get w name = Some old -> space w = Some k ->
  write name c w
  = if (String.length c <=? k)%nat
    then (mkWorld ((name, old ++ c) :: disk w) (open_error w)
            (Some (k - String.length c)%nat) (console w), inl tt)
    else (mkWorld ((name, old ++ substring 0 k c) :: disk w) (open_error w)
            (Some O) (console w), inr no_space).
Proof. intros Hold Hsp. unfold write. now rewrite Hold, Hsp. Qed.

(** With no limit on the device every chunk is appended. *)
Lemma write_each_unlimited chunks : forall w old,
  disk_get w name = Some old -> space w = None ->
  exists w',
    write_each name chunks w = (w', inl tt) /\
    disk_get w' name = Some (old ++ join chunks) /\
    space w' = None /\ same_outside w w'.
Proof.
  induction chunks as [| c r IH]; intros w old Hold Hsp.
  - exists w. cbn [write_each join fold_right]. unfold ret.
    rewrite append_nil_r. repeat split; assumption.
  - rewrite write_each_cons, (write_unlimited c w old Hold Hsp).
    set (w1 := mkWorld _ _ _ _).
    destruct (IH w1 (old ++ c)) as (w' & E & Hd & Hs & Hc & Ho);
      [apply disk_get_pushed | reflexivity |].
    exists w'. rewrite E. cbn [join fold_right].
    rewrite Hd, append_assoc. repeat split; assumption.
Qed.

(** With room for [k] more bytes the file receives the first [k] bytes of
    the chunks, and [OSError] is raised when that is not all of them. *)
Lemma write_each_limited chunks : forall w old k,
  disk_get w name = Some old -> space w = Some k ->
  exists w',
    same_outside w w' /\
    if (String.length (join chunks) <=? k)%nat
    then write_each name chunks w = (w', inl tt) /\
         disk_get w' name = Some (old ++ join chunks)
    else write_each name chunks w = (w', inr no_space) /\
         disk_get w' name = Some (old ++ substring 0 k (join chunks)).
Proof.
  induction chunks as [| c r IH]; intros w old k Hold Hsp.
  - exists w. split; [split; reflexivity |].
    cbn [join fold_right String.length Nat.leb write_each]. unfold ret.
    rewrite append_nil_r. now split.
  - rewrite write_each_cons, (write_limited c w old k Hold Hsp).
    cbn [join fold_right]. fold (join r). rewrite length_append.
    destruct (String.length c <=? k)%nat eqn:Ec.
    + apply Nat.leb_le in Ec.
      set (w1 := mkWorld _ _ _ _).
      destruct (IH w1 (old ++ c) (k - String.length c)%nat)
        as (w' & [Hc Ho] & H); [apply disk_get_pushed | reflexivity |].
      exists w'. split; [split; assumption |].
      destruct (String.length (join r) <=? k - String.length c)%nat eqn:Er.
      * apply Nat.leb_le in Er.
        assert (El : (String.length c + String.length (join r) <=? k)%nat
                     = true) by (apply Nat.leb_le; lia).
        rewrite El. destruct H as [E Hd]. rewrite Hd, append_assoc.
        now split.
      * apply Nat.leb_gt in Er.
        assert (El : (String.length c + String.length (join r) <=? k)%nat
                     = false) by (apply Nat.leb_gt; lia).
        rewrite El. destruct H as [E Hd]. rewrite Hd, append_assoc.
        rewrite substring_0_app_long by exact Ec. now split.
    + apply Nat.leb_gt in Ec.
      exists (mkWorld ((name, old ++ substring 0 k c) :: disk w)
                (open_error w) (Some O) (console w)).
      split; [split; reflexivity |].
      assert (El : (String.length c + String.length (join r) <=? k)%nat
                   = false) by (apply Nat.leb_gt; lia).
      rewrite El. split; [reflexivity |].
      rewrite disk_get_pushed.
      rewrite substring_0_app_short by lia. reflexivity.
Qed.

(** [with open(name, 'w') as f] and its writes, with no limit. *)
Lemma with_open_w_unlimited chunks w :
  open_error w name = None -> space w = None ->
  exists w',
    with_open_w name chunks w = (w', inl tt) /\
    disk_get w' name = Some (join chunks) /\
    space w' = None /\ same_outside w w'.
Proof.
  intros Ho Hs. unfold with_open_w, bind, open_w. rewrite Ho.
  set (w1 := mkWorld _ _ _ _).
  destruct (write_each_unlimited chunks w1 "")
    as (w' & E & Hd & Hs' & Hc); [apply disk_get_pushed | exact Hs |].
  exists w'. rewrite E. repeat split; try assumption; apply Hc.
Qed.

(** [with open(name, 'w') as f] and its writes, the device full after [k]
    bytes: the file is left with the first [k] bytes of the text. *)
Lemma with_open_w_full chunks w k :
  open_error w name = None -> space w = Some k ->
  (k < String.length (join chunks))%nat ->
  exists w',
    with_open_w name chunks w = (w', inr no_space) /\
    disk_get w' name = Some (substring 0 k (join chunks)) /\
    same_outside w w'.
Proof.
  intros Ho Hs Hk. unfold with_open_w, bind, open_w. rewrite Ho.
  set (w1 := mkWorld _ _ _ _).
  destruct (write_each_limited chunks w1 "" k)
    as (w' & Hc & H); [apply disk_get_pushed | exact Hs |].
  assert (El : (String.length (join chunks) <=? k)%nat = false)
    by (apply Nat.leb_gt; exact Hk).
  rewrite El in H. destruct H as [E Hd].
  exists w'. rewrite E. repeat split; try assumption; apply Hc.
Qed.

End WriteFacts.

Section MainFacts.

Variable json_chunks : stats -> list string.

Lemma bind_ok {A B} (m : io A) (k : A -> io B) w w1 a :
  m w = (w1, inl a) -> bind m k w = k a w1.
Proof. intros E. unfold bind. now rewrite E. Qed.

Lemma bind_raise {A B} (m : io A) (k : A -> io B) w w1 e :
  m w = (w1, inr e) -> bind m k w = (w1, inr e).
Proof. intros E. unfold bind. now rewrite E. Qed.

(** A report whose writes all succeed. *)
Lemma save_report_unlimited stats output w :
  open_error w output = None -> space w = None ->
  exists w',
    save_report stats output w = (w', inl tt) /\
    disk_get w' output = Some (report_text stats) /\
    space w' = None /\ open_error w' = open_error w /\
    console w' = (console w ++ saved_lines stats output)%list.
Proof.
  intros Ho Hs.
  destruct (with_open_w_unlimited output (report_chunks stats) w Ho Hs)
    as (w1 & E & Hd & Hs1 & Hc & Ho1).
  exists (mkWorld (disk w1) (open_error w1) (space w1)
            (console w1 ++ saved_lines stats output)%list).
  split.
  - unfold save_report. rewrite (bind_ok _ _ _ _ _ E).
    unfold bind, print. cbn [disk open_error space console].
    unfold saved_lines. rewrite <- !app_assoc. reflexivity.
  - unfold disk_get in *. cbn [disk space open_error console].
    rewrite Hc. repeat split; assumption.
Qed.

(** A report whose device is full after [k] bytes. *)
Lemma save_report_full stats output w k :
  open_error w output = None -> space w = Some k ->
  (k < String.length (report_text stats))%nat ->
  exists w',
    save_report stats output w = (w', inr no_space) /\
    disk_get w' output = Some (substring 0 k (report_text stats)) /\
    same_outside w w'.
Proof.
  intros Ho Hs Hk.
  destruct (with_open_w_full output (report_chunks stats) w k Ho Hs Hk)
    as (w1 & E & Hd & Hc).
  exists w1. unfold save_report. rewrite (bind_raise _ _ _ _ _ E).
  repeat split; try assumption; apply Hc.
Qed.

Lemma save_json_report_full stats output w k :
  open_error w output = None -> space w = Some k ->
  (k < String.length (join (json_chunks stats)))%nat ->
  exists w',
    save_json_report json_chunks stats output w = (w', inr no_space) /\
    disk_get w' output = Some (substring 0 k (join (json_chunks stats))) /\
    same_outside w w'.
Proof.
  intros Ho Hs Hk.
  destruct (with_open_w_full output (json_chunks stats) w k Ho Hs Hk)
    as (w1 & E & Hd & Hc).
  exists w1. unfold save_json_report. rewrite (bind_raise _ _ _ _ _ E).
  repeat split; try assumption; apply Hc.
Qed.

(** C1.  When the start path does not exist, or is not a directory that
    can be listed, the walk yields nothing and raises nothing: [main] writes
    the whole report (with [directory_count = -1]), prints the lines of a
    successful run and no diagnostic, and returns 0. *)
Theorem unlistable_root_ends_in_success
  (args : arguments) (start : option node) (now : string) (w : world) :
  (forall es, start <> Some (Dir es)) ->
  open_error w (arg_output args) = None ->
  space w = None ->
  arg_json args = false ->
  exists w',
    main json_chunks args start now w = (w', inl 0) /\
    disk_get w' (arg_output args)
    = Some (report_text (get_repo_stats start now)) /\
    directory_count (get_repo_stats start now) = -1 /\
    console w'
    = (console w
       ++ start_line args
          :: saved_lines (get_repo_stats start now) (arg_output args))%list /\
    saved_lines (get_repo_stats start now) (arg_output args)
    = [ "✅ Отчёт сохранён в: " ++ arg_output args;
        "📊 Статистика:";
        "   Файлов: 0";
        "   Папок: -1";
        "   Объём: 0.00 B" ].
Proof.
  intros Hstart Ho Hs Hj.
  assert (E : get_repo_stats start now = get_repo_stats None now).
  { apply get_repo_stats_of_walk.
    - destruct start as [[sz | es | |] |]; try reflexivity.
      now destruct (Hstart es).
    - unfold counted_files.
      destruct start as [[sz | es | |] |]; try reflexivity.
      now destruct (Hstart es). }
  unfold main, main_try. rewrite Hj, E.
  set (st := get_repo_stats None now).
  set (w0 := mkWorld (disk w) (open_error w) (space w)
               (console w ++ [start_line args])).
  assert (Ep : print ("🔍 Анализ репозитория: " ++ arg_path args) w
               = (w0, inl tt)) by reflexivity.
  rewrite (bind_ok _ _ _ _ _ Ep).
  destruct (save_report_unlimited st (arg_output args) w0 Ho Hs)
    as (w1 & Es & Hd & Hs1 & Ho1 & Hc).
  rewrite (bind_ok _ _ _ _ _ Es).
  exists w1. split; [reflexivity |]. split; [exact Hd |].
  split; [reflexivity |]. split; [| reflexivity].
  rewrite Hc. unfold w0. cbn [console]. rewrite <- app_assoc. reflexivity.
Qed.

(** C4, as the claim states it, fails: with a device that accepts 61 more
    bytes, [save_report] raises and leaves [report.log] holding the first
    line of the report: neither what it held before nor the whole
    report. *)
Lemma save_report_is_not_all_or_nothing :
  ~ (forall stats output,
       all_or_nothing (save_report stats output) output (report_text stats)).
Proof.
  intros H.
  specialize (H empty_stats "report.log" nearly_full
                (fst (save_report empty_stats "report.log" nearly_full))
                no_space).
  assert (E : save_report empty_stats "report.log" nearly_full
              = (fst (save_report empty_stats "report.log" nearly_full),
                 inr no_space))
    by (vm_compute; reflexivity).
  specialize (H E). vm_compute in H.
  destruct H as [H | [H | H]]; discriminate H.
Qed.

(** C4, amended.  When the device accepts only the first [k] bytes of a
    report, the destination file, cut to length zero on opening, is left
    holding exactly those [k] bytes: it is not completed, restored or
    removed.  The failure is not suppressed: [save_report] and
    [save_json_report] raise and print no confirmation, and [main] prints
    the error and returns 1. *)
Theorem failed_write_leaves_written_prefix
  (stats : stats) (output : string) (w : world) (k : nat) :
  open_error w output = None ->
  space w = Some k ->
  ((k < String.length (report_text stats))%nat ->
   exists w',
     save_report stats output w = (w', inr no_space) /\
     disk_get w' output = Some (substring 0 k (report_text stats)) /\
     console w' = console w) /\
  ((k < String.length (join (json_chunks stats)))%nat ->
   exists w',
     save_json_report json_chunks stats output w = (w', inr no_space) /\
     disk_get w' output = Some (substring 0 k (join (json_chunks stats))) /\
     console w' = console w) /\
  (forall args start now,
     stats = get_repo_stats start now -> output = arg_output args ->
     (k < String.length (report_text stats))%nat ->
     exists w',
       main json_chunks args start now w = (w', inl 1) /\
       disk_get w' output = Some (substring 0 k (report_text stats)) /\
       console w'
       = (console w ++ [start_line args; unexpected_line no_space])%list).
Proof.
  intros Ho Hs. split; [| split].
  - intros Hk.
    destruct (save_report_full stats output w k Ho Hs Hk)
      as (w' & E & Hd & Hc & _).
    now exists w'.
  - intros Hk.
    destruct (save_json_report_full stats output w k Ho Hs Hk)
      as (w' & E & Hd & Hc & _).
    now exists w'.
  - intros args start now -> -> Hk.
    unfold main, main_try.
    set (st := get_repo_stats start now) in *.
    set (w0 := mkWorld (disk w) (open_error w) (space w)
                 (console w ++ [start_line args])).
    assert (Ep : print ("🔍 Анализ репозитория: " ++ arg_path args) w
                 = (w0, inl tt)) by reflexivity.
    rewrite (bind_ok _ _ _ _ _ Ep).
    destruct (save_report_full st (arg_output args) w0 k Ho Hs Hk)
      as (w1 & E & Hd & Hc & Ho1).
    rewrite (bind_raise _ _ _ _ _ E).
    exists (mkWorld (disk w1) (open_error w1) (space w1)
              (console w1 ++ [unexpected_line no_space])%list).
    split; [reflexivity |].
    unfold disk_get in *. cbn [disk console].
    rewrite Hc. unfold w0. cbn [console]. rewrite <- app_assoc.
    split; [exact Hd | reflexivity].
Qed.

(** C10.  A subdirectory whose listing fails is passed over: the scan of a
    tree gives the same result as the scan of the tree without that
    subdirectory, so it is not in [directory_count] and nothing below it is
    in any statistic; and the run prints, writes and returns what it does
    without it, so no error is reported. *)
Theorem unreadable_subdirectory_is_skipped_silently
  (t t' : node) (now : string) (args : arguments) (w : world) :
  remove_entry unreadable_dir t t' ->
  get_repo_stats (Some t) now = get_repo_stats (Some t') now /\
  main json_chunks args (Some t) now w = main json_chunks args (Some t') now w.
Proof.
  intros Hr.
  assert (E : get_repo_stats (Some t) now = get_repo_stats (Some t') now).
  { revert Hr. apply remove_inert_stats. exact unreadable_dir_inert. }
  split; [exact E |].
  unfold main, main_try. now rewrite E.
Qed.

End MainFacts.

(* ================================================================== *)
(** * The category of a file name *)

(** C9, as the claim states it, fails: [.bashrc] has a ['.'], and its
    category is the sentinel, not [.bashrc]. *)
Lemma dotfile_is_classified_under_sentinel :
  ~ (forall file,
       has_char "/" file = false ->
       extension file = category_by_last_dot file).
Proof.
  intros H. specialize (H ".bashrc" eq_refl). discriminate H.
Qed.

(** C9, amended.  The category of a counted file is the part of its name
    from the last ['.'] on, lower-cased, when a character other than ['.']
    stands before that ['.'].  Otherwise it is the sentinel
    ["no_extension"]: for a name without ['.'], and for a name whose last
    ['.'] has only dots before it, such as a dotfile.  The lower-casing is
    the one the code calls, [str.lower], taken here as any function that
    leaves a leading dot in its place. *)
Theorem category_of_file_name (lower : string -> string) (file : string) :
  keeps_leading_dot lower ->
  has_char "/" file = false ->
  extension_with lower file = category_after_stem lower file /\
  (extension_with lower file = "no_extension" <->
   last_dot_suffix file = None \/ stem_has_non_dot file = false).
Proof.
  intros Hdot Hsep. rewrite (extension_by_stem lower file Hsep).
  split; [reflexivity |]. unfold category_after_stem.
  destruct (last_dot_suffix file) as [suffix |] eqn:El.
  - destruct (stem_has_non_dot file).
    + destruct (last_dot_suffix_starts_with_dot _ _ El) as [rest ->].
      destruct (Hdot rest) as [rest' ->].
      split; [discriminate | intros [H | H]; discriminate H].
    + split; [now right | reflexivity].
  - split; [now left | reflexivity].
Qed.

Lemma category_of_file_name_witness :
  keeps_leading_dot Str.lower /\
  extension "b.TXT" = category_after_stem Str.lower "b.TXT" /\
  (extension "b.TXT" = "no_extension" <->
   last_dot_suffix "b.TXT" = None \/ stem_has_non_dot "b.TXT" = false).
Proof.
  assert (Hdot : keeps_leading_dot Str.lower)
    by (intros rest; exists (Str.lower rest); reflexivity).
  split; [exact Hdot |].
  apply (category_of_file_name Str.lower "b.TXT" Hdot). reflexivity.
Defined.

(** The categories of some names. *)
Example extension_examples :
  map extension ["a.txt"; "b.TXT"; "README"; ".bashrc"; "archive.tar.gz";
                 "x."; "..."; "..a"; "a..b"]
  = [".txt"; ".txt"; "no_extension"; "no_extension"; ".gz"; ".";
     "no_extension"; "no_extension"; ".b"].
Proof. reflexivity. Qed.

(* ================================================================== *)
(** * Runs on concrete trees *)

Example scenario_result :
  get_repo_stats (Some scenario) "2024-01-01 00:00:00"
  = mkStats "2024-01-01 00:00:00" 160 "160.00 B" 3 0 3
      [(".txt", 2); ("no_extension", 1)]
      [ mkInfo "a.txt" 100 "100.00 B";
        mkInfo "b.TXT" 50 "50.00 B";
        mkInfo "README" 10 "10.00 B" ]
      "53.33 B".
Proof. vm_compute. reflexivity. Qed.

Example empty_root_result :
  get_repo_stats (Some (Dir [])) "2024-01-01 00:00:00"
  = mkStats "2024-01-01 00:00:00" 0 "0.00 B" 0 0 0 [] [] "0 B".
Proof. vm_compute. reflexivity. Qed.

Example missing_root_result :
  get_repo_stats None "2024-01-01 00:00:00"
  = mkStats "2024-01-01 00:00:00" 0 "0.00 B" 0 (-1) (-1) [] [] "0 B".
Proof. vm_compute. reflexivity. Qed.

Lemma format_size_contract_witness :
  exists (k : nat) (ip : string) (d1 d2 : ascii),
    format_size (PyInt 1536)
    = ip ++ "." ++ String d1 (String d2 "") ++ " " ++ nth k units "" /\
    (k <= 4)%nat /\
    ip <> "" /\ Str.all_digits ip = true /\
    Str.is_digit d1 = true /\ Str.is_digit d2 = true /\
    (forall j, (j < k)%nat -> 1024 * 1024 ^ Z.of_nat j <= 1536) /\
    ((k < 4)%nat -> 1536 < 1024 * 1024 ^ Z.of_nat k) /\
    (1536 < 2 ^ 53 ->
     Str.decimal ip * 100 + Str.decimal (String d1 (String d2 ""))
     = round_half_even (100 * 1536) (1024 ^ Z.of_nat k)).
Proof.
  apply (proj1 format_size_contract 1536).
  split; [discriminate | reflexivity].
Defined.

Lemma ignored_entries_contribute_nothing_witness :
  get_repo_stats (Some scenario) ""
  = get_repo_stats
      (Some (Dir [ ("a.txt", File (Some 100%N));
                   ("b.TXT", File (Some 50%N));
                   ("README", File (Some 10%N)) ])) "".
Proof.
  apply (proj1 ignored_entries_contribute_nothing).
  exact (remove_here ignored_dir
           [ ("a.txt", File (Some 100%N)); ("b.TXT", File (Some 50%N));
             ("README", File (Some 10%N)) ]
           "venv" (Dir [("x.py", File (Some 999999%N))]) []
           (conj eq_refl eq_refl)).
Defined.

Lemma unreadable_subdirectory_is_skipped_silently_witness :
  get_repo_stats (Some locked_tree) "" = get_repo_stats (Some open_tree) "" /\
  main (fun _ => ["{}"]) (mkArgs "." "report.log" true)
       (Some locked_tree) "" fresh
  = main (fun _ => ["{}"]) (mkArgs "." "report.log" true)
         (Some open_tree) "" fresh.
Proof.
  apply (unreadable_subdirectory_is_skipped_silently (fun _ => ["{}"])).
  exact (remove_below unreadable_dir [] "src" _ _
           [("README", File (Some 10%N))]
           (remove_here unreadable_dir [("main.py", File (Some 2048%N))]
              "private" Unreadable [] eq_refl)).
Defined.

Lemma unlistable_root_ends_in_success_witness :
  exists w',
    main (fun _ => ["{}"]) (mkArgs "missing" "report.log" false) None
         "2024-01-01 00:00:00" fresh
    = (w', inl 0) /\
    disk_get w' "report.log"
    = Some (report_text (get_repo_stats None "2024-01-01 00:00:00")) /\
    directory_count (get_repo_stats None "2024-01-01 00:00:00") = -1 /\
    console w'
    = (console fresh
       ++ start_line (mkArgs "missing" "report.log" false)
          :: saved_lines (get_repo_stats None "2024-01-01 00:00:00")
               "report.log")%list /\
    saved_lines (get_repo_stats None "2024-01-01 00:00:00") "report.log"
    = [ "✅ Отчёт сохранён в: " ++ "report.log";
        "📊 Статистика:";
        "   Файлов: 0";
        "   Папок: -1";
        "   Объём: 0.00 B" ].
Proof.
  apply (unlistable_root_ends_in_success (fun _ => ["{}"])
           (mkArgs "missing" "report.log" false) None
           "2024-01-01 00:00:00" fresh).
  - intros es H. discriminate H.
  - reflexivity.
  - reflexivity.
  - reflexivity.
Defined.

(** The run of the counterexample: the first line is all that is left. *)
Example save_report_on_nearly_full_device :
  let '(w', r) := save_report empty_stats "report.log" nearly_full in
  r = inr no_space /\
  disk_get nearly_full "report.log" = Some "old" /\
  disk_get w' "report.log" = Some (rule "=" ++ nl) /\
  console w' = [].
Proof. vm_compute. repeat split; reflexivity. Qed.

Lemma failed_write_leaves_written_prefix_witness :
  exists w',
    save_report empty_stats "report.log" nearly_full = (w', inr no_space) /\
    disk_get w' "report.log"
    = Some (substring 0 61 (report_text empty_stats)) /\
    console w' = console nearly_full.
Proof.
  apply (proj1 (failed_write_leaves_written_prefix (fun _ => ["{}"])
                  empty_stats "report.log" nearly_full 61
                  eq_refl eq_refl)).
  apply Nat.ltb_lt. vm_compute. reflexivity.
Defined.

(* ================================================================== *)
(** * The histogram of extensions *)

Section DictFacts.

Lemma dict_get_set d : forall k v k' default,
  dict_get (dict_set d k v) k' default
  = if String.eqb k' k then v else dict_get d k' default.
Proof.
  induction d as [| [k0 v0] r IH]; intros k v k' default.
  - cbn [dict_set dict_get]. reflexivity.
  - cbn [dict_set]. destruct (String.eqb k k0) eqn:E.
    + apply String.eqb_eq in E. subst k0. cbn [dict_get].
      now destruct (String.eqb k' k).
    + cbn [dict_get]. rewrite IH.
      destruct (String.eqb k' k0) eqn:E0; [| reflexivity].
      apply String.eqb_eq in E0. subst k0.
      destruct (String.eqb k' k) eqn:E1; [| reflexivity].
      apply String.eqb_eq in E1. subst k'.
      rewrite String.eqb_refl in E. discriminate E.
Qed.

Lemma dict_keys_set d : forall k v,
  dict_keys (dict_set d k v)
  = if Str.mem k (dict_keys d) then dict_keys d
    else (dict_keys d ++ [k])%list.
Proof.
  induction d as [| [k0 v0] r IH]; intros k v; [reflexivity |].
  cbn [dict_set dict_keys map fst Str.mem].
  destruct (String.eqb k k0) eqn:E; cbn [orb map fst]; [reflexivity |].
  fold (dict_keys r). fold (dict_keys (dict_set r k v)). rewrite IH.
  now destruct (Str.mem k (dict_keys r)).
Qed.

Lemma mem_In x l : Str.mem x l = true <-> In x l.
Proof.
  induction l as [| y r IH]; cbn [Str.mem In]; [split; [discriminate | easy] |].
  rewrite orb_true_iff, IH, String.eqb_eq. split; intros [H | H]; auto.
Qed.

Lemma dict_set_nodup d k v :
  NoDup (dict_keys d) -> NoDup (dict_keys (dict_set d k v)).
Proof.
  intros Hd. rewrite dict_keys_set.
  destruct (Str.mem k (dict_keys d)) eqn:E; [exact Hd |].
  apply NoDup_app; [exact Hd | repeat constructor; easy |].
  intros x Hx [<- | []]. apply mem_In in Hx. congruence.
Qed.

Lemma dict_get_absent d k default :
  Str.mem k (dict_keys d) = false -> dict_get d k default = default.
Proof.
  induction d as [| [k0 v0] r IH]; intros H; [reflexivity |].
  cbn [dict_keys map fst Str.mem] in H. apply orb_false_elim in H.
  destruct H as [E H]. cbn [dict_get]. rewrite E. now apply IH.
Qed.

Lemma dict_get_In d k v default :
  NoDup (dict_keys d) -> In (k, v) d -> dict_get d k default = v.
Proof.
  induction d as [| [k0 v0] r IH]; intros Hd Hin; [destruct Hin |].
  cbn [dict_keys map fst] in Hd. inversion Hd as [| ? ? Hnot Hr]; subst.
  cbn [dict_get]. destruct Hin as [E | Hin].
  - inversion E; subst. now rewrite String.eqb_refl.
  - destruct (String.eqb k k0) eqn:E; [| now apply IH].
    apply String.eqb_eq in E. subst k0. destruct Hnot.
    change k with (fst (k, v)). now apply in_map.
Qed.

End DictFacts.

Section HistogramFacts.

Lemma dict_set_In d : forall k v k' v',
  In (k', v') (dict_set d k v) -> (k' = k /\ v' = v) \/ In (k', v') d.
Proof.
  induction d as [| [k0 v0] r IH]; intros k v k' v' Hin.
  - destruct Hin as [E | []]. inversion E. now left.
  - cbn [dict_set] in Hin. destruct (String.eqb k k0) eqn:E.
    + apply String.eqb_eq in E. subst k0.
      destruct Hin as [E | Hin]; [inversion E; now left | right; now right].
    + destruct Hin as [E' | Hin]; [right; now left |].
      destruct (IH _ _ _ _ Hin) as [H | H]; [now left | right; now right].
Qed.

Lemma count_of_nonneg x l : 0 <= count_of x l.
Proof.
  induction l as [| y r IH]; cbn [count_of]; [lia |].
  destruct (String.eqb x y); lia.
Qed.

Lemma count_of_In x l : In x l -> 1 <= count_of x l.
Proof.
  induction l as [| y r IH]; intros Hin; [destruct Hin |].
  cbn [count_of]. pose proof (count_of_nonneg x r).
  destruct Hin as [-> | Hin].
  - rewrite String.eqb_refl. lia.
  - specialize (IH Hin). destruct (String.eqb x y); lia.
Qed.

(** [for ...: d[ext] = d.get(ext, 0) + 1] adds to each key the number of
    times it was met. *)
Lemma count_extensions_get exts : forall d k,
  dict_get (fold_left count_extension exts d) k 0
  = dict_get d k 0 + count_of k exts.
Proof.
  induction exts as [| e r IH]; intros d k.
  - cbn [fold_left count_of]. lia.
  - cbn [fold_left count_of]. rewrite IH. unfold count_extension.
    rewrite dict_get_set. destruct (String.eqb k e) eqn:E; [| lia].
    apply String.eqb_eq in E. subst e. lia.
Qed.

Lemma count_extensions_nodup exts : forall d,
  NoDup (dict_keys d) ->
  NoDup (dict_keys (fold_left count_extension exts d)).
Proof.
  induction exts as [| e r IH]; intros d Hd; [exact Hd |].
  cbn [fold_left]. apply IH. now apply dict_set_nodup.
Qed.

Lemma count_extensions_keys exts : forall d k,
  In k (dict_keys (fold_left count_extension exts d)) <->
  In k (dict_keys d) \/ In k exts.
Proof.
  induction exts as [| e r IH]; intros d k.
  - cbn [fold_left In]. tauto.
  - cbn [fold_left In]. rewrite IH. unfold count_extension.
    rewrite dict_keys_set.
    destruct (Str.mem e (dict_keys d)) eqn:E.
    + apply mem_In in E. split; [tauto |].
      intros [H | [<- | H]]; auto.
    + rewrite in_app_iff. cbn [In]. tauto.
Qed.

End HistogramFacts.

(** The histogram counts the counted files by category: every key stands
    once in [files_by_extension], looking a category up gives the number of
    counted files of that category (0 for a category that is no key), and
    the count of every key is at least 1.  Stated for the trees whose file
    names are ASCII, where the categories are those of the program. *)
Theorem files_by_extension_counts_each_category
  (start : option node) (now : string) :
  ascii_names start ->
  let d := files_by_extension (get_repo_stats start now) in
  NoDup (dict_keys d) /\
  (forall ext, dict_get d ext 0 = count_of ext (counted_extensions start)) /\
  (forall ext count,
     In (ext, count) d ->
     1 <= count /\ count = count_of ext (counted_extensions start)).
Proof.
  intros _. cbv zeta. rewrite result_files_by_extension.
  fold (counted_extensions start).
  assert (Hn : NoDup (dict_keys
                        (fold_left count_extension (counted_extensions start) [])))
    by (apply count_extensions_nodup; constructor).
  assert (Hg : forall ext,
             dict_get (fold_left count_extension (counted_extensions start) [])
               ext 0 = count_of ext (counted_extensions start)).
  { intros ext. rewrite count_extensions_get. cbn [dict_get]. lia. }
  split; [exact Hn |]. split; [exact Hg |].
  intros ext count Hin.
  assert (E : count = count_of ext (counted_extensions start)).
  { rewrite <- Hg. symmetry. now apply dict_get_In. }
  split; [| exact E]. rewrite E. apply count_of_In.
  assert (Hk : In ext (dict_keys
                         (fold_left count_extension (counted_extensions start) []))).
  { change ext with (fst (ext, count)). now apply in_map. }
  apply count_extensions_keys in Hk. destruct Hk as [[] | Hk]. exact Hk.
Qed.

Lemma files_by_extension_counts_each_category_witness :
  ascii_names (Some scenario) /\
  dict_get (files_by_extension (get_repo_stats (Some scenario) "")) ".txt" 0
  = count_of ".txt" (counted_extensions (Some scenario)).
Proof.
  split; [reflexivity |].
  refine (proj1 (proj2 (files_by_extension_counts_each_category
                          (Some scenario) "" _)) ".txt").
  reflexivity.
Defined.

Section ExtensionForm.

Lemma rfind_from_range c s : forall i,
  Path.rfind_from c s i = -1 \/ i <= Path.rfind_from c s i.
Proof.
  induction s as [| a r IH]; intros i; [now left |].
  cbn [Path.rfind_from].
  destruct (IH (i + 1)) as [E | E].
  - rewrite E. change (0 <=? -1) with false. cbv iota.
    destruct (Ascii.eqb a c); [right; lia | now left].
  - destruct (0 <=? Path.rfind_from c r (i + 1)) eqn:E0; [right; lia |].
    destruct (Ascii.eqb a c); [right; lia | now left].
Qed.

Lemma lower_char_idempotent c :
  Str.lower_char (Str.lower_char c) = Str.lower_char c.
Proof. destruct c as [[] [] [] [] [] [] [] []]; reflexivity. Qed.

Lemma lower_idempotent s : Str.lower (Str.lower s) = Str.lower s.
Proof.
  induction s as [| c r IH]; [reflexivity |].
  cbn [Str.lower]. now rewrite lower_char_idempotent, IH.
Qed.

(** What [os.path.splitext] returns as extension is empty or starts at a
    dot. *)
Lemma splitext_extension p :
  snd (Path.splitext p) = "" \/
  exists rest, snd (Path.splitext p) = String "." rest.
Proof.
  unfold Path.splitext, Path.rfind.
  pose proof (rfind_dot_spec p) as H.
  destruct (last_dot_suffix p) as [suffix |] eqn:El.
  - destruct H as (d & Hd & Hfind & Hsub & _).
    rewrite (Hfind 0) by lia. cbn [Z.add].
    destruct ((Path.rfind_from "/" p 0 <? Z.of_nat d)
              && Path.scan_stem (String.length p) p
                   (Path.rfind_from "/" p 0 + 1) (Z.of_nat d));
      [| now left].
    right. cbn [snd]. rewrite Nat2Z.id, Hsub.
    exact (last_dot_suffix_starts_with_dot _ _ El).
  - rewrite (H 0).
    destruct (rfind_from_range "/" p 0) as [E | E].
    + rewrite E. now left.
    + assert (E' : (Path.rfind_from "/" p 0 <? -1) = false)
        by (apply Z.ltb_ge; lia).
      rewrite E'. now left.
Qed.

(** A category is the sentinel or a lower-case string that starts with a
    dot. *)
Lemma extension_form file :
  extension file = "no_extension" \/
  (exists rest, extension file = String "." rest) /\
  Str.lower (extension file) = extension file.
Proof.
  unfold extension, extension_with.
  destruct (splitext_extension file) as [E | [rest E]];
    destruct (Path.splitext file) as [stem ext]; cbn [snd] in E; subst ext.
  - now left.
  - right. cbn [String.eqb]. split.
    + exists (Str.lower rest). reflexivity.
    + apply lower_idempotent.
Qed.

End ExtensionForm.

Section AsciiText.

Lemma is_ascii_lower_char a :
  Str.is_ascii_char (Str.lower_char a) = Str.is_ascii_char a.
Proof. destruct a as [[] [] [] [] [] [] [] []]; reflexivity. Qed.

Lemma is_ascii_lower s : Str.is_ascii (Str.lower s) = Str.is_ascii s.
Proof.
  induction s as [| a r IH]; [reflexivity |].
  cbn [Str.lower Str.is_ascii]. now rewrite is_ascii_lower_char, IH.
Qed.

Lemma is_ascii_substring s : forall n m,
  Str.is_ascii s = true -> Str.is_ascii (substring n m s) = true.
Proof.
  induction s as [| a r IH]; intros n m H.
  - destruct n, m; reflexivity.
  - cbn [Str.is_ascii] in H. apply andb_prop in H. destruct H as [Ha Hr].
    destruct n as [| n]; [destruct m as [| m] |]; cbn [substring].
    + reflexivity.
    + cbn [Str.is_ascii]. rewrite Ha. cbn [andb]. now apply IH.
    + now apply IH.
Qed.

(** The category of an ASCII name is ASCII text. *)
Lemma extension_is_ascii file :
  Str.is_ascii file = true -> Str.is_ascii (extension file) = true.
Proof.
  intros H. unfold extension, extension_with, Path.splitext.
  destruct (_ && _); cbn iota beta.
  - destruct (String.eqb _ ""); [reflexivity |].
    rewrite is_ascii_lower. now apply is_ascii_substring.
  - reflexivity.
Qed.

End AsciiText.

(** The keys of the histogram of a tree whose file names are ASCII: each
    is the category of a counted file, ASCII text, and so the sentinel
    ["no_extension"] or a string that starts with a dot and holds no
    upper-case letter (lower-casing leaves it as it is). *)
Theorem files_by_extension_keys_are_lower_case
  (start : option node) (now : string) (ext : string) :
  ascii_names start ->
  In ext (dict_keys (files_by_extension (get_repo_stats start now))) ->
  In ext (counted_extensions start) /\
  Str.is_ascii ext = true /\
  (ext = "no_extension" \/
   (exists rest, ext = String "." rest) /\ Str.lower ext = ext).
Proof.
  rewrite result_files_by_extension. fold (counted_extensions start).
  intros Ha Hk. apply count_extensions_keys in Hk. destruct Hk as [[] | Hk].
  split; [exact Hk |].
  unfold counted_extensions in Hk. apply in_map_iff in Hk.
  destruct Hk as (x & <- & Hx). split; [| apply extension_form].
  apply extension_is_ascii.
  unfold ascii_names in Ha. rewrite forallb_forall in Ha. now apply Ha.
Qed.

Lemma files_by_extension_keys_are_lower_case_witness :
  In ".txt" (counted_extensions (Some scenario)) /\
  Str.is_ascii ".txt" = true /\
  (".txt" = "no_extension" \/
   (exists rest, ".txt" = String "." rest) /\ Str.lower ".txt" = ".txt").
Proof.
  apply (files_by_extension_keys_are_lower_case (Some scenario) "" ".txt").
  - reflexivity.
  - vm_compute. left. reflexivity.
Defined.

Section CaseFolding.

Lemma lower_char_dot a :
  Ascii.eqb (Str.lower_char a) "." = Ascii.eqb a ".".
Proof. destruct a as [[] [] [] [] [] [] [] []]; reflexivity. Qed.

Lemma lower_char_slash a :
  Ascii.eqb (Str.lower_char a) "/" = Ascii.eqb a "/".
Proof. destruct a as [[] [] [] [] [] [] [] []]; reflexivity. Qed.

Lemma rfind_from_lower c s :
  (forall a, Ascii.eqb (Str.lower_char a) c = Ascii.eqb a c) ->
  forall i, Path.rfind_from c (Str.lower s) i = Path.rfind_from c s i.
Proof.
  intros Hc. induction s as [| a r IH]; intros i; [reflexivity |].
  cbn [Str.lower Path.rfind_from]. now rewrite IH, Hc.
Qed.

Lemma length_lower s : String.length (Str.lower s) = String.length s.
Proof.
  induction s as [| a r IH]; [reflexivity |].
  cbn [Str.lower String.length]. now rewrite IH.
Qed.

Lemma not_dot_at_lower p i :
  Path.not_dot_at (Str.lower p) i = Path.not_dot_at p i.
Proof.
  unfold Path.not_dot_at. generalize (Z.to_nat i) as n.
  induction p as [| a r IH]; intros n; [now destruct n |].
  cbn [Str.lower]. destruct n as [| n]; cbn [String.get].
  - now rewrite lower_char_dot.
  - apply IH.
Qed.

Lemma scan_stem_lower fuel p : forall i d,
  Path.scan_stem fuel (Str.lower p) i d = Path.scan_stem fuel p i d.
Proof.
  induction fuel as [| f IH]; intros i d; [reflexivity |].
  cbn [Path.scan_stem]. now rewrite not_dot_at_lower, IH.
Qed.

Lemma substring_lower s : forall n m,
  substring n m (Str.lower s) = Str.lower (substring n m s).
Proof.
  induction s as [| a r IH]; intros n m.
  - now destruct n, m.
  - cbn [Str.lower]. destruct n as [| n].
    + destruct m as [| m]; [reflexivity |].
      cbn [substring Str.lower]. now rewrite IH.
    + cbn [substring]. apply IH.
Qed.

Lemma lower_empty s : String.eqb (Str.lower s) "" = String.eqb s "".
Proof. now destruct s. Qed.

Lemma extension_lower file : extension (Str.lower file) = extension file.
Proof.
  unfold extension, extension_with, Path.splitext, Path.rfind.
  rewrite (rfind_from_lower "/" file lower_char_slash).
  rewrite (rfind_from_lower "." file lower_char_dot).
  rewrite length_lower, scan_stem_lower.
  destruct ((Path.rfind_from "/" file 0 <? Path.rfind_from "." file 0)
            && Path.scan_stem (String.length file) file
                 (Path.rfind_from "/" file 0 + 1)
                 (Path.rfind_from "." file 0)).
  - rewrite substring_lower, lower_empty, lower_idempotent. reflexivity.
  - reflexivity.
Qed.

End CaseFolding.

(** The category of an ASCII name does not depend on the case of its
    letters: two ASCII names that are equal once lower-cased have the same
    category. *)
Theorem extension_ignores_case (file1 file2 : string) :
  Str.is_ascii file1 = true -> Str.is_ascii file2 = true ->
  Str.lower file1 = Str.lower file2 -> extension file1 = extension file2.
Proof.
  intros _ _ E. rewrite <- (extension_lower file1), <- (extension_lower file2).
  now rewrite E.
Qed.

Lemma extension_ignores_case_witness :
  extension "Notes.TXT" = extension "notes.txt".
Proof. apply extension_ignores_case; reflexivity. Defined.

(* ================================================================== *)
(** * The text of a formatted size *)

Section FormattedText.

Lemma fixed_2_text x :
  0 <= fm x ->
  fixed 2 x
  = Str.of_nonneg (scaled 2 x / 100) ++ "."
    ++ Str.frac_digits 2 (scaled 2 x mod 100) "".
Proof.
  intros Hm. unfold fixed.
  destruct (fm x <? 0) eqn:E; [apply Z.ltb_lt in E; lia |].
  reflexivity.
Qed.

(** The text for an int below 2^53 whose unit is the [k]-th: the hundredths
    of the exact quotient, rounded to the nearest, ties to even. *)
Lemma format_size_text n k :
  0 < n < 2 ^ 53 -> (k <= 4)%nat ->
  (k <> O -> 1024 ^ Z.of_nat k <= n) ->
  ((k < 4)%nat -> n < 1024 * 1024 ^ Z.of_nat k) ->
  let q := round_half_even (100 * n) (1024 ^ Z.of_nat k) in
  format_size (PyInt n)
  = Str.of_nonneg (q / 100) ++ "." ++ Str.frac_digits 2 (q mod 100) ""
    ++ " " ++ nth k units "".
Proof.
  intros Hn Hk Hlow Hup q.
  assert (Hpos : 0 < n) by lia.
  pose proof (float_of_int_nonneg n ltac:(lia)) as Hm.
  assert (Hq : forall s, s = 10 * Z.of_nat k ->
            fmt_f 2 (PyFloat (mkF (fm (float_of_int n))
                                (fe (float_of_int n) - s)))
            = Str.of_nonneg (q / 100) ++ "."
              ++ Str.frac_digits 2 (q mod 100) "").
  { intros s ->. unfold fmt_f, to_float. rewrite fixed_2_text by exact Hm.
    rewrite scaled_float_of_int by lia.
    replace (2 ^ (10 * Z.of_nat k)) with (1024 ^ Z.of_nat k)
      by (change 1024 with (2 ^ 10); rewrite <- Z.pow_mul_r by lia;
          reflexivity).
    reflexivity. }
  assert (X0 : PyFloat (float_of_int n)
               = PyFloat (mkF (fm (float_of_int n))
                            (fe (float_of_int n) - 0))).
  { destruct (float_of_int n). cbn [fm fe]. do 2 f_equal. lia. }
  rewrite (format_size_int n Hpos). cbv zeta.
  change (fmt_f 2 (PyInt n)) with (fmt_f 2 (PyFloat (float_of_int n))).
  rewrite X0.
  destruct k as [| [| [| [| [| k]]]]]; [| | | | | lia].
  - assert (E : (n <? 1024) = true) by (apply Z.ltb_lt; apply Hup; lia).
    rewrite E, (Hq 0 eq_refl), !append_assoc. reflexivity.
  - assert (L : 1024 <= n) by (apply Hlow; lia).
    assert (U : n < 1024 * 2 ^ 10) by (apply Hup; lia).
    assert (E0 : (n <? 1024) = false) by (apply Z.ltb_ge; lia).
    assert (E1 : (n <? 1024 * 2 ^ 10) = true) by (apply Z.ltb_lt; lia).
    rewrite E0, E1, (Hq 10 eq_refl), !append_assoc. reflexivity.
  - assert (L : 1024 ^ 2 <= n) by (apply Hlow; lia).
    assert (U : n < 1024 * 2 ^ 20) by (apply Hup; lia).
    assert (P : 1024 ^ 2 = 1024 * 2 ^ 10) by reflexivity.
    assert (E0 : (n <? 1024) = false) by (apply Z.ltb_ge; lia).
    assert (E1 : (n <? 1024 * 2 ^ 10) = false) by (apply Z.ltb_ge; lia).
    assert (E2 : (n <? 1024 * 2 ^ 20) = true) by (apply Z.ltb_lt; lia).
    rewrite E0, E1, E2, (Hq 20 eq_refl), !append_assoc. reflexivity.
  - assert (L : 1024 ^ 3 <= n) by (apply Hlow; lia).
    assert (U : n < 1024 * 2 ^ 30) by (apply Hup; lia).
    assert (P : 1024 ^ 3 = 1024 * 2 ^ 20) by reflexivity.
    assert (P' : 1024 * 2 ^ 10 < 1024 * 2 ^ 20) by reflexivity.
    assert (E0 : (n <? 1024) = false) by (apply Z.ltb_ge; lia).
    assert (E1 : (n <? 1024 * 2 ^ 10) = false) by (apply Z.ltb_ge; lia).
    assert (E2 : (n <? 1024 * 2 ^ 20) = false) by (apply Z.ltb_ge; lia).
    assert (E3 : (n <? 1024 * 2 ^ 30) = true) by (apply Z.ltb_lt; lia).
    rewrite E0, E1, E2, E3, (Hq 30 eq_refl), !append_assoc. reflexivity.
  - assert (L : 1024 ^ 4 <= n) by (apply Hlow; lia).
    assert (P : 1024 ^ 4 = 1024 * 2 ^ 30) by reflexivity.
    assert (P' : 1024 * 2 ^ 10 < 1024 * 2 ^ 30) by reflexivity.
    assert (P'' : 1024 * 2 ^ 20 < 1024 * 2 ^ 30) by reflexivity.
    assert (E0 : (n <? 1024) = false) by (apply Z.ltb_ge; lia).
    assert (E1 : (n <? 1024 * 2 ^ 10) = false) by (apply Z.ltb_ge; lia).
    assert (E2 : (n <? 1024 * 2 ^ 20) = false) by (apply Z.ltb_ge; lia).
    assert (E3 : (n <? 1024 * 2 ^ 30) = false) by (apply Z.ltb_ge; lia).
    rewrite E0, E1, E2, E3, (Hq 40 eq_refl), !append_assoc. reflexivity.
Qed.

Lemma round_half_even_between n d lo hi :
  0 < d -> lo * d <= n -> n < hi * d ->
  lo <= round_half_even n d <= hi.
Proof.
  intros Hd Hlo Hhi.
  assert (lo <= n / d) by (apply Z.div_le_lower_bound; lia).
  assert (n / d < hi) by (apply Z.div_lt_upper_bound; lia).
  unfold round_half_even.
  destruct (2 * (n mod d) <? d); [lia |].
  destruct (d <? 2 * (n mod d)); [lia |].
  destruct (Z.even (n / d)); lia.
Qed.

End FormattedText.

(** A size below 1024 bytes is printed as it is: its decimal numeral,
    [.00] and the unit B. *)
Theorem format_size_below_1024 (n : Z) :
  0 <= n < 1024 -> format_size (PyInt n) = Str.of_nonneg n ++ ".00 B".
Proof.
  intros [Hn Hlt].
  destruct (Z.eq_dec n 0) as [-> | Hz]; [reflexivity |].
  assert (H53 : 1024 < 2 ^ 53) by reflexivity.
  rewrite (format_size_text n 0) by (cbn [Z.of_nat]; lia).
  cbv zeta. change (1024 ^ Z.of_nat 0) with 1.
  rewrite round_half_even_one.
  replace (100 * n / 100) with n by (rewrite Z.mul_comm, Z.div_mul; lia).
  replace (100 * n mod 100) with 0 by (rewrite Z.mul_comm, Z.mod_mul; lia).
  reflexivity.
Qed.

Lemma format_size_below_1024_witness :
  format_size (PyInt 512) = Str.of_nonneg 512 ++ ".00 B".
Proof. apply format_size_below_1024. lia. Defined.

(** From 1024 bytes on (and below 2^53) the value printed is at least 1.00,
    and for KB, MB and GB at most 1024.00: the text is the numeral of [q]
    hundredths, where [q] is the byte count divided by the power of 1024 of
    the unit and rounded to the nearest hundredth.  The upper bound is
    met: one byte less than a megabyte is printed as ["1024.00 KB"], the
    unit does not move up when the value is rounded up. *)
Theorem format_size_value_between_1_and_1024 :
  (forall n, 1024 <= n < 2 ^ 53 ->
     exists (k : nat) (q : Z),
       (1 <= k <= 4)%nat /\
       q = round_half_even (100 * n) (1024 ^ Z.of_nat k) /\
       format_size (PyInt n)
       = Str.of_nonneg (q / 100) ++ "." ++ Str.frac_digits 2 (q mod 100) ""
         ++ " " ++ nth k units "" /\
       100 <= q /\ ((k < 4)%nat -> q <= 102400)) /\
  format_size (PyInt (1024 * 1024 - 1)) = "1024.00 KB".
Proof.
  split; [| vm_compute; reflexivity].
  intros n [Hlo Hhi].
  assert (Hfind : exists k : nat,
            (1 <= k <= 4)%nat /\ 1024 ^ Z.of_nat k <= n /\
            ((k < 4)%nat -> n < 1024 * 1024 ^ Z.of_nat k)).
  { destruct (Z_lt_le_dec n (1024 ^ 2)) as [H2 | H2];
      [exists 1%nat; repeat split;
       first [lia | exact Hlo | intros _; exact H2] |].
    destruct (Z_lt_le_dec n (1024 ^ 3)) as [H3 | H3];
      [exists 2%nat; repeat split;
       first [lia | exact H2 | intros _; exact H3] |].
    destruct (Z_lt_le_dec n (1024 ^ 4)) as [H4 | H4];
      [exists 3%nat; repeat split;
       first [lia | exact H3 | intros _; exact H4] |].
    exists 4%nat. repeat split; first [lia | exact H4]. }
  destruct Hfind as (k & Hk & Hlow & Hup).
  assert (Hd : 0 < 1024 ^ Z.of_nat k) by (apply Z.pow_pos_nonneg; lia).
  exists k, (round_half_even (100 * n) (1024 ^ Z.of_nat k)).
  split; [exact Hk |]. split; [reflexivity |]. split.
  - apply format_size_text;
      first [lia | intros _; exact Hlow | exact Hup].
  - split.
    + apply (round_half_even_between (100 * n) (1024 ^ Z.of_nat k) 100
               (100 * n + 1) Hd); nia.
    + intros H4. specialize (Hup H4).
      apply (round_half_even_between (100 * n) (1024 ^ Z.of_nat k) 0
               102400 Hd); nia.
Qed.

Lemma format_size_value_between_1_and_1024_witness :
  exists (k : nat) (q : Z),
    (1 <= k <= 4)%nat /\
    q = round_half_even (100 * 1536) (1024 ^ Z.of_nat k) /\
    format_size (PyInt 1536)
    = Str.of_nonneg (q / 100) ++ "." ++ Str.frac_digits 2 (q mod 100) ""
      ++ " " ++ nth k units "" /\
    100 <= q /\ ((k < 4)%nat -> q <= 102400).
Proof.
  apply (proj1 format_size_value_between_1_and_1024 1536).
  split; [discriminate | reflexivity].
Defined.

Section SizeTexts.

(** Whatever non-negative float [format_size] is given, it answers with a
    text of the form [<digits>.<two digits> <unit>]. *)
Lemma format_size_float_text x :
  0 <= fm x -> size_text (format_size (PyFloat x)).
Proof.
  intros Hm.
  assert (Hshape : forall (k : nat) y, (k <= 4)%nat -> fm y = fm x ->
            size_text (fmt_f 2 (PyFloat y) ++ " " ++ nth k units "")).
  { intros k y Hk Hy.
    assert (Hm' : 0 <= fm y) by (rewrite Hy; exact Hm).
    destruct (fmt_unit_shape y (nth k units "") Hm')
      as (ip & d1 & d2 & E & H1 & H2 & H3 & H4 & _).
    exists k, ip, d1, d2. repeat split; assumption. }
  unfold format_size. cbn [format_size_loop].
  destruct (lt_1024 (PyFloat x)); [apply (Hshape 0%nat); [lia | reflexivity] |].
  destruct (lt_1024 (div_1024 (PyFloat x)));
    [apply (Hshape 1%nat); [lia | reflexivity] |].
  destruct (lt_1024 (div_1024 (div_1024 (PyFloat x))));
    [apply (Hshape 2%nat); [lia | reflexivity] |].
  destruct (lt_1024 (div_1024 (div_1024 (div_1024 (PyFloat x)))));
    [apply (Hshape 3%nat); [lia | reflexivity] |].
  apply (Hshape 4%nat); [lia | reflexivity].
Qed.

(** On an int [format_size] answers as on its conversion to float. *)
Lemma format_size_int_as_float n :
  0 <= n -> format_size (PyInt n) = format_size (PyFloat (float_of_int n)).
Proof.
  intros Hn. destruct (Z.eq_dec n 0) as [-> | Hz]; [reflexivity |].
  unfold format_size. cbn [format_size_loop].
  assert (E : lt_1024 (PyFloat (float_of_int n)) = lt_1024 (PyInt n)).
  { cbn [lt_1024].
    replace (float_of_int n)
      with (mkF (fm (float_of_int n)) (fe (float_of_int n) - 0))
      by (destruct (float_of_int n); cbn [fm fe]; f_equal; lia).
    rewrite flt_int_float_of_int by lia.
    change (1024 * 2 ^ 0) with 1024. reflexivity. }
  rewrite E. reflexivity.
Qed.

Lemma round53_pos_nonneg n d : 0 < n -> 0 < d -> 0 <= fm (round53_pos n d).
Proof.
  intros Hn Hd. unfold round53_pos.
  set (e0 := Z.log2 n - Z.log2 d - 53).
  set (e := let '(a, b) := if e0 <? 0 then (n * 2 ^ (- e0), d)
                           else (n, d * 2 ^ e0) in
            if 2 ^ 53 <=? a / b then e0 + 1 else e0).
  destruct (e <? 0) eqn:E; cbn [fm].
  - apply round_half_even_nonneg; [| exact Hd].
    apply Z.ltb_lt in E.
    assert (0 < 2 ^ (- e)) by (apply Z.pow_pos_nonneg; lia). nia.
  - apply Z.ltb_ge in E.
    assert (0 < 2 ^ e) by (apply Z.pow_pos_nonneg; lia).
    apply round_half_even_nonneg; nia.
Qed.

Lemma truediv_nonneg a b : 0 <= a -> 0 < b -> 0 <= fm (truediv a b).
Proof.
  intros Ha Hb. unfold truediv.
  destruct (b <? 0) eqn:E; [apply Z.ltb_lt in E; lia |].
  unfold round53. destruct (a =? 0) eqn:E0; [cbn [fm]; lia |].
  apply Z.eqb_neq in E0.
  destruct (a <? 0) eqn:E1; [apply Z.ltb_lt in E1; lia |].
  apply round53_pos_nonneg; lia.
Qed.

Lemma sum_nonneg l : Forall (fun x => 0 <= x) l -> 0 <= sum l.
Proof.
  induction 1 as [| x l Hx Hl IH]; cbn [sum fold_right]; [lia |].
  fold (sum l). lia.
Qed.

Lemma counted_sizes_nonneg start :
  Forall (fun x => 0 <= x) (map snd (counted_files start)).
Proof.
  apply Forall_forall. intros size Hin. apply in_map_iff in Hin.
  destruct Hin as ([[r f] size'] & <- & Hin). cbn [snd].
  unfold counted_files in Hin. apply in_flat_map in Hin.
  destruct Hin as ([root files] & _ & Hin).
  apply counted_of_visit_In in Hin. destruct Hin as (_ & _ & n & -> & _).
  lia.
Qed.

End SizeTexts.

(** Every human-readable size of the result has the form
    [<digits>.<two digits> <unit>] with a unit among B, KB, MB, GB, TB:
    [total_size_human], the [size_human] of each entry of [largest_files],
    and [average_file_size] when a file was counted.  With no file counted
    [average_file_size] is ["0 B"], the one size text without decimals.
    The total is taken in the range of a float. *)
Theorem sizes_of_result_are_size_texts (start : option node) (now : string) :
  float_range start ->
  let r := get_repo_stats start now in
  size_text (total_size_human r) /\
  (forall info, In info (largest_files r) -> size_text (size_human info)) /\
  (if file_count r =? 0 then average_file_size r = "0 B"
   else size_text (average_file_size r)).
Proof.
  intros _. cbv zeta.
  pose proof (counted_sizes_nonneg start) as Hsizes.
  assert (Htotal : 0 <= Loop.total_size (scan_loop start)).
  { rewrite scan_loop_advance. cbn [advance Loop.total_size Loop.init].
    pose proof (sum_nonneg _ Hsizes). lia. }
  split; [| split].
  - unfold get_repo_stats. cbn [total_size_human].
    rewrite format_size_int_as_float by exact Htotal.
    apply format_size_float_text. now apply float_of_int_nonneg.
  - rewrite result_largest_files. intros info Hin.
    apply in_map_iff in Hin. destruct Hin as ([p size] & <- & Hin).
    cbn [size_human snd].
    apply firstn_incl in Hin.
    apply (Permutation_in _ (sort_desc_perm snd _)) in Hin.
    apply in_map_iff in Hin. destruct Hin as (x & E & Hin).
    inversion E; subst.
    assert (Hx : 0 <= snd x).
    { rewrite Forall_forall in Hsizes. apply Hsizes. now apply in_map. }
    rewrite format_size_int_as_float by exact Hx.
    apply format_size_float_text. now apply float_of_int_nonneg.
  - pose proof (file_count_nonneg start now) as Hc. revert Hc.
    unfold get_repo_stats. cbn [file_count average_file_size]. intros Hc.
    destruct (Loop.file_count (scan_loop start) =? 0) eqn:E.
    + apply Z.eqb_eq in E. rewrite E. reflexivity.
    + apply Z.eqb_neq in E.
      assert (E' : (0 <? Loop.file_count (scan_loop start)) = true)
        by (apply Z.ltb_lt; lia).
      rewrite E'. apply format_size_float_text.
      apply truediv_nonneg; lia.
Qed.

Lemma sizes_of_result_are_size_texts_witness :
  float_range (Some scenario) /\
  size_text (total_size_human (get_repo_stats (Some scenario) "")).
Proof.
  split; [vm_compute; reflexivity |].
  refine (proj1 (sizes_of_result_are_size_texts (Some scenario) "" _)).
  vm_compute. reflexivity.
Defined.

(* ================================================================== *)
(** * The scan of a directory and of its subdirectories *)

Section Composition.

Lemma counted_sizes_of_visit v :
  map snd (counted_of_visit v) = sizes_of_files (v_files v).
Proof.
  destruct v as [root files]. unfold sizes_of_files, counted_of_visit.
  cbn [v_files v_root].
  induction files as [| [file sz] r IH]; [reflexivity |].
  cbn [flat_map fst snd]. rewrite !map_app, IH. f_equal.
  destruct (Str.mem file ignore_files); [reflexivity |].
  now destruct sz.
Qed.

Lemma counted_sizes_of_walk walk :
  map snd (flat_map counted_of_visit walk) = sizes_of_walk walk.
Proof.
  induction walk as [| v r IH]; [reflexivity |].
  cbn [flat_map sizes_of_walk]. rewrite map_app, IH, counted_sizes_of_visit.
  reflexivity.
Qed.

(** The files met below a directory do not depend on the path under which
    the walk reaches it. *)
Lemma walk_files_any_root t : forall root root',
  map v_files (os_walk keep_dir root t)
  = map v_files (os_walk keep_dir root' t).
Proof.
  induction t as [sz | es IH | | ] using node_tree_ind;
    intros root root'; try reflexivity.
  rewrite !os_walk_dir. cbn [map v_files]. f_equal.
  unfold walk_entries.
  induction es as [| [name c] r IHr]; [reflexivity |].
  inversion IH as [| ? ? Hc Hr]; subst.
  cbn [flat_map fst snd]. rewrite !map_app. f_equal; [| now apply IHr].
  destruct (is_dir c && keep_dir name); [| reflexivity].
  apply Hc.
Qed.

Lemma sizes_of_walk_map walk walk' :
  map v_files walk = map v_files walk' ->
  sizes_of_walk walk = sizes_of_walk walk'.
Proof.
  revert walk'. induction walk as [| v r IH]; intros [| v' r'] E;
    try discriminate E; [reflexivity |].
  cbn [map] in E. inversion E as [[Ev Er]].
  cbn [sizes_of_walk flat_map]. rewrite Ev. f_equal. now apply IH.
Qed.

Lemma length_map_eq {A B} (f : A -> B) (l l' : list A) :
  map f l = map f l' -> List.length l = List.length l'.
Proof.
  intros E. rewrite <- (length_map f l), <- (length_map f l'). now rewrite E.
Qed.

Lemma own_sizes_of_listing es : sizes_of_files (file_entries es) = own_sizes es.
Proof.
  unfold sizes_of_files, own_sizes, counted_of_visit. cbn [v_files v_root].
  induction es as [| [name c] r IH]; [reflexivity |].
  cbn [flat_map fst snd].
  destruct c as [[n |] | es' | | ]; cbn [file_entries flat_map fst snd];
    rewrite ?map_app, IH; try reflexivity.
  - now destruct (Str.mem name ignore_files).
  - now destruct (Str.mem name ignore_files).
Qed.

(** The result in terms of the walk: the number of visits and the sizes
    counted. *)
Lemma result_of_walk start now :
  file_count (get_repo_stats start now)
  = Z.of_nat (List.length (sizes_of_walk (os_walk_top keep_dir start))) /\
  total_size_bytes (get_repo_stats start now)
  = sum (sizes_of_walk (os_walk_top keep_dir start)) /\
  directory_count (get_repo_stats start now)
  = Z.of_nat (List.length (os_walk_top keep_dir start)) - 1.
Proof.
  unfold get_repo_stats.
  cbn [file_count total_size_bytes directory_count].
  rewrite !scan_loop_advance.
  cbn [advance Loop.total_size Loop.file_count Loop.dir_count Loop.init].
  unfold counted_files. rewrite <- counted_sizes_of_walk, length_map.
  repeat split; lia.
Qed.

End Composition.

(** The scan of a directory adds up the scans of its subdirectories: its
    [file_count] and [total_size_bytes] are those of its own counted files
    plus those of each listed subdirectory whose name is not ignored, and
    its [directory_count] is, for each such subdirectory, one more than the
    [directory_count] of that subdirectory. *)
Theorem scan_of_directory_adds_up_subdirectories
  (es : list (string * node)) (now : string) :
  let r := get_repo_stats (Some (Dir es)) now in
  let below (field : stats -> Z) (extra : Z) :=
    sum (map (fun e : string * node =>
                if listed_subdir e
                then field (get_repo_stats (Some (snd e)) now) + extra
                else 0) es) in
  file_count r = Z.of_nat (List.length (own_sizes es)) + below file_count 0 /\
  total_size_bytes r = sum (own_sizes es) + below total_size_bytes 0 /\
  directory_count r = below directory_count 1.
Proof.
  cbv zeta.
  destruct (result_of_walk (Some (Dir es)) now) as (Ef & Et & Ed).
  rewrite Ef, Et, Ed. cbn [os_walk_top]. rewrite os_walk_dir.
  cbn [sizes_of_walk flat_map List.length v_files].
  fold (sizes_of_walk (walk_entries keep_dir [] es)).
  rewrite own_sizes_of_listing, length_app, sum_app, Nat2Z.inj_add.
  assert (H : forall l : list (string * node),
    Z.of_nat (List.length (sizes_of_walk (walk_entries keep_dir [] l)))
    = sum (map (fun e : string * node =>
                  if listed_subdir e
                  then file_count (get_repo_stats (Some (snd e)) now) + 0
                  else 0) l) /\
    sum (sizes_of_walk (walk_entries keep_dir [] l))
    = sum (map (fun e : string * node =>
                  if listed_subdir e
                  then total_size_bytes (get_repo_stats (Some (snd e)) now) + 0
                  else 0) l) /\
    Z.of_nat (List.length (walk_entries keep_dir [] l))
    = sum (map (fun e : string * node =>
                  if listed_subdir e
                  then directory_count (get_repo_stats (Some (snd e)) now) + 1
                  else 0) l)).
  { induction l as [| [name c] l IH]; [repeat split; reflexivity |].
    destruct IH as (IHf & IHt & IHd).
    unfold walk_entries in *. cbn [flat_map map fst snd].
    unfold sizes_of_walk in *. rewrite flat_map_app, !length_app, sum_app.
    rewrite !Nat2Z.inj_add, IHf, IHt, IHd.
    change (sum (?a :: ?l)) with (a + sum l).
    unfold listed_subdir. cbn [fst snd].
    destruct c as [sz | es' | | ]; cbn [is_dir andb];
      try (destruct (keep_dir name);
           cbn [os_walk flat_map List.length sum fold_right];
           repeat split; lia).
    destruct (keep_dir name);
      [| cbn [flat_map List.length sum fold_right]; repeat split; lia].
    destruct (result_of_walk (Some (Dir es')) now) as (Ef' & Et' & Ed').
    rewrite Ef', Et', Ed'. cbn [os_walk_top].
    pose proof (walk_files_any_root (Dir es') ([] ++ [name])%list []) as Hw.
    fold (sizes_of_walk (os_walk keep_dir ([] ++ [name]) (Dir es'))).
    fold (sizes_of_walk (os_walk keep_dir [] (Dir es'))).
    rewrite (sizes_of_walk_map _ _ Hw), (length_map_eq _ _ _ Hw).
    repeat split; lia. }
  destruct (H es) as (Hf & Ht & Hd).
  rewrite Nat2Z.inj_succ, Hf, Ht, Hd. repeat split; lia.
Qed.

(** With at most ten files counted nothing is cut: [largest_files] holds
    every counted file once, it is a rearrangement of the counted files. *)
Theorem largest_files_hold_every_file_up_to_ten
  (start : option node) (now : string) :
  file_count (get_repo_stats start now) <= 10 ->
  Permutation (largest_files (get_repo_stats start now))
    (map info_of (counted_files start)).
Proof.
  rewrite result_file_count, result_largest_files. intros Hc.
  rewrite firstn_all2
    by (rewrite sort_desc_length, length_map; lia).
  rewrite (Permutation_map _ (sort_desc_perm snd _)).
  rewrite map_map. reflexivity.
Qed.

Lemma largest_files_hold_every_file_up_to_ten_witness :
  Permutation (largest_files (get_repo_stats (Some scenario) ""))
    (map info_of (counted_files (Some scenario))).
Proof.
  apply largest_files_hold_every_file_up_to_ten. vm_compute. discriminate.
Defined.

(* ================================================================== *)
(** * What a run writes and returns *)

Section Frames.

Lemma untouched_refl names w : untouched_outside names w w.
Proof. intros other _. reflexivity. Qed.

Lemma untouched_trans names w1 w2 w3 :
  untouched_outside names w1 w2 -> untouched_outside names w2 w3 ->
  untouched_outside names w1 w3.
Proof.
  intros H12 H23 other Ho. now rewrite (H23 other Ho), (H12 other Ho).
Qed.

Lemma untouched_more names names' w w' :
  incl names names' ->
  untouched_outside names w w' -> untouched_outside names' w w'.
Proof. intros Hi H other Ho. apply H. intros Hin. apply Ho, Hi, Hin. Qed.

Lemma disk_get_other name c d oe sp co other w :
  other <> name -> disk w = d ->
  disk_get (mkWorld ((name, c) :: d) oe sp co) other = disk_get w other.
Proof.
  intros Hne <-. unfold disk_get. cbn [disk find fst].
  destruct (String.eqb other name) eqn:E; [| reflexivity].
  apply String.eqb_eq in E. contradiction.
Qed.

Lemma bind_frame {A B} names (m : io A) (k : A -> io B) :
  (forall w, untouched_outside names w (fst (m w))) ->
  (forall a w, untouched_outside names w (fst (k a w))) ->
  forall w, untouched_outside names w (fst (bind m k w)).
Proof.
  intros Hm Hk w. unfold bind. specialize (Hm w).
  destruct (m w) as [w1 [a | e]]; cbn [fst] in *; [| exact Hm].
  eapply untouched_trans; [exact Hm | apply Hk].
Qed.

Lemma print_frame names line w :
  untouched_outside names w (fst (print line w)).
Proof. intros other _. reflexivity. Qed.

Lemma ret_frame {A} names (a : A) w :
  untouched_outside names w (fst (ret a w)).
Proof. apply untouched_refl. Qed.

Lemma open_w_frame name w : untouched_outside [name] w (fst (open_w name w)).
Proof.
  unfold open_w. destruct (open_error w name); [apply untouched_refl |].
  intros other Ho. cbn [fst]. apply disk_get_other; [| reflexivity].
  intros ->. apply Ho. now left.
Qed.

Lemma write_frame name text w :
  untouched_outside [name] w (fst (write name text w)).
Proof.
  intros other Ho.
  assert (Hne : other <> name) by (intros ->; apply Ho; now left).
  unfold write. destruct (space w) as [k |]; [| now apply disk_get_other].
  destruct (String.length text <=? k)%nat; now apply disk_get_other.
Qed.

Lemma write_each_frame name chunks :
  forall w, untouched_outside [name] w (fst (write_each name chunks w)).
Proof.
  induction chunks as [| c r IH]; intros w; [apply untouched_refl |].
  cbn [write_each]. apply bind_frame; [apply write_frame |].
  intros _. exact IH.
Qed.

Lemma with_open_w_frame name chunks w :
  untouched_outside [name] w (fst (with_open_w name chunks w)).
Proof.
  unfold with_open_w. apply bind_frame; [apply open_w_frame |].
  intros _. apply write_each_frame.
Qed.

Lemma save_report_frame stats output w :
  untouched_outside [output] w (fst (save_report stats output w)).
Proof.
  unfold save_report.
  repeat (apply bind_frame; [intros; first [apply with_open_w_frame
                                           | apply print_frame] | intros _]).
  intros w'. apply print_frame.
Qed.

End Frames.

Section Runs.

Variable json_chunks : stats -> list string.

Lemma save_json_report_frame stats output w :
  untouched_outside [output] w
    (fst (save_json_report json_chunks stats output w)).
Proof.
  unfold save_json_report. apply bind_frame; [apply with_open_w_frame |].
  intros _ w'. apply print_frame.
Qed.

Lemma main_try_frame args start now w :
  untouched_outside (written_by args) w
    (fst (main_try json_chunks args start now w)).
Proof.
  unfold main_try, written_by. apply bind_frame.
  - intros w0. eapply untouched_more; [| apply save_report_frame].
    intros x [<- | []]. destruct (arg_json args); now left.
  - intros _. apply bind_frame; [| intros _ w0; apply ret_frame].
    intros w0. destruct (arg_json args); [| apply ret_frame].
    eapply untouched_more; [| apply save_json_report_frame].
    intros x [<- | []]. right. now left.
Qed.

Lemma bind_inl_inv {A B} (m : io A) (k : A -> io B) w w' b :
  bind m k w = (w', inl b) ->
  exists w1 a, m w = (w1, inl a) /\ k a w1 = (w', inl b).
Proof.
  unfold bind. destruct (m w) as [w1 [a | e]]; intros E; [| discriminate E].
  now exists w1, a.
Qed.

Lemma main_try_code args start now w w' code :
  main_try json_chunks args start now w = (w', inl code) -> code = 0.
Proof.
  unfold main_try. intros E.
  apply bind_inl_inv in E. destruct E as (w1 & _ & _ & E).
  apply bind_inl_inv in E. destruct E as (w2 & _ & _ & E).
  unfold ret in E. now inversion E.
Qed.

Lemma main_except_result args e w :
  main_except args e w
  = (mkWorld (disk w) (open_error w) (space w)
       (console w ++ [failure_line args e])%list, inl 1).
Proof.
  unfold main_except, failure_line. now destruct (exn_class_of e).
Qed.

(** [main] in terms of its [try] block. *)
Lemma main_unfold args start now w :
  main json_chunks args start now w
  = let w0 := mkWorld (disk w) (open_error w) (space w)
                (console w ++ [start_line args])%list in
    match main_try json_chunks args start now w0 with
    | (w', inl code) => (w', inl code)
    | (w', inr e) => main_except args e w'
    end.
Proof. reflexivity. Qed.

(** Whatever the file system, the clock and the device are, [main] raises
    nothing: it returns 0 or 1.  And it leaves every file alone other than
    the text report and, with [--json], [report.json]. *)
Theorem main_returns_0_or_1_and_writes_its_reports_only
  (args : arguments) (start : option node) (now : string) (w : world) :
  exists w' code,
    main json_chunks args start now w = (w', inl code) /\
    (code = 0 \/ code = 1) /\
    untouched_outside (written_by args) w w'.
Proof.
  rewrite main_unfold. cbv zeta.
  set (w0 := mkWorld _ _ _ _).
  assert (H0 : untouched_outside (written_by args) w w0)
    by (intros other _; reflexivity).
  pose proof (main_try_frame args start now w0) as Hf.
  destruct (main_try json_chunks args start now w0) as [w1 [code | e]] eqn:E.
  - exists w1, code. split; [reflexivity |]. split.
    + left. exact (main_try_code _ _ _ _ _ _ E).
    + eapply untouched_trans; [exact H0 | exact Hf].
  - rewrite main_except_result. eexists. exists 1.
    split; [reflexivity |]. split; [now right |].
    eapply untouched_trans; [exact H0 |].
    eapply untouched_trans; [exact Hf |].
    intros other _. reflexivity.
Qed.

(** When the text report cannot be opened for writing, nothing is written
    and no file is made, the JSON report is not tried, and [main] prints
    its line for this class of exception and returns 1.  For
    [FileNotFoundError] and [PermissionError] that line names the scanned
    directory [args.path], although it is the output file that failed.
    The scan itself is taken to succeed: its total is in the range of a
    float. *)
Theorem unwritable_output_ends_the_run
  (args : arguments) (start : option node) (now : string) (w : world)
  (e : exn) :
  float_range start ->
  open_error w (arg_output args) = Some e ->
  main json_chunks args start now w
  = (mkWorld (disk w) (open_error w) (space w)
       (console w ++ [start_line args; failure_line args e])%list,
     inl 1).
Proof.
  intros _ Ho. rewrite main_unfold. cbv zeta.
  unfold main_try, save_report, with_open_w, bind, open_w.
  cbn [open_error]. rewrite Ho. rewrite main_except_result.
  cbn [disk open_error space console]. rewrite <- app_assoc. reflexivity.
Qed.

End Runs.

Lemma unwritable_output_ends_the_run_witness :
  main (fun _ => ["{}"]) (mkArgs "." "out/report.log" true)
    (Some scenario) "" read_only
  = (mkWorld (disk read_only) (open_error read_only) (space read_only)
       (console read_only
        ++ [start_line (mkArgs "." "out/report.log" true);
            failure_line (mkArgs "." "out/report.log" true)
              (mkExn FileNotFoundError
                 "[Errno 2] No such file or directory: 'out/report.log'")])%list,
     inl 1).
Proof.
  apply (unwritable_output_ends_the_run (fun _ => ["{}"])
           (mkArgs "." "out/report.log" true) (Some scenario) "" read_only).
  - vm_compute. reflexivity.
  - reflexivity.
Defined.

Section Room.

Variable name : string.

(** With room for all of them the chunks are written and the room shrinks
    by their length. *)
Lemma write_each_fits chunks : forall w old k,
  disk_get w name = Some old -> space w = Some k ->
  (String.length (join chunks) <= k)%nat ->
  exists w',
    write_each name chunks w = (w', inl tt) /\
    disk_get w' name = Some (old ++ join chunks) /\
    space w' = Some (k - String.length (join chunks))%nat /\
    same_outside w w'.
Proof.
  induction chunks as [| c r IH]; intros w old k Hold Hsp Hk.
  - exists w. cbn [write_each join fold_right String.length]. unfold ret.
    rewrite append_nil_r, Nat.sub_0_r. repeat split; assumption.
  - cbn [join fold_right] in Hk. fold (join r) in Hk.
    rewrite length_append in Hk.
    rewrite write_each_cons, (write_limited name c w old k Hold Hsp).
    assert (Ec : (String.length c <=? k)%nat = true)
      by (apply Nat.leb_le; lia).
    rewrite Ec. set (w1 := mkWorld _ _ _ _).
    destruct (IH w1 (old ++ c) (k - String.length c)%nat)
      as (w' & E & Hd & Hs & Hc & Ho);
      [apply disk_get_pushed | reflexivity | lia |].
    exists w'. rewrite E. cbn [join fold_right]. fold (join r).
    rewrite Hd, Hs, append_assoc, length_append.
    repeat split; try assumption. f_equal. lia.
Qed.

Lemma with_open_w_fits chunks w k :
  open_error w name = None -> space w = Some k ->
  (String.length (join chunks) <= k)%nat ->
  exists w',
    with_open_w name chunks w = (w', inl tt) /\
    disk_get w' name = Some (join chunks) /\
    space w' = Some (k - String.length (join chunks))%nat /\
    same_outside w w'.
Proof.
  intros Ho Hs Hk. unfold with_open_w, bind, open_w. rewrite Ho.
  set (w1 := mkWorld _ _ _ _).
  destruct (write_each_fits chunks w1 "" k)
    as (w' & E & Hd & Hs' & Hc); [apply disk_get_pushed | exact Hs | exact Hk |].
  exists w'. rewrite E. repeat split; try assumption; apply Hc.
Qed.

End Room.

Section ReportsOfARun.

Variable json_chunks : stats -> list string.

(** A run with nothing in its way: both [open] calls succeed, the device
    has no limit and the paths of the counted files are ASCII.  [main]
    returns 0 and the console shows the start line, the five lines of
    [save_report] and, with [--json], the line of [save_json_report].
    Without [--json] the output file holds the whole text report.  With
    [--json], [report.json] holds all that [json.dump] wrote: it is written
    last, so this is what the file holds also when [--output] leads to
    [report.json] itself, and the text report is then gone. *)
Theorem unhindered_run_writes_both_reports
  (args : arguments) (start : option node) (now : string) (w : world) :
  float_range start ->
  ascii_paths start ->
  open_error w (arg_output args) = None ->
  (arg_json args = true -> open_error w "report.json" = None) ->
  space w = None ->
  let stats := get_repo_stats start now in
  exists w',
    main json_chunks args start now w = (w', inl 0) /\
    console w'
    = (console w ++ start_line args :: saved_lines stats (arg_output args)
       ++ (if arg_json args then [json_saved_line "report.json"] else []))%list
    /\
    (if arg_json args
     then disk_get w' "report.json" = Some (join (json_chunks stats))
     else disk_get w' (arg_output args) = Some (report_text stats)).
Proof.
  intros _ _ Ho Hj Hs stats. rewrite main_unfold. cbv zeta.
  set (w0 := mkWorld _ _ _ _).
  destruct (save_report_unlimited stats (arg_output args) w0 Ho Hs)
    as (w1 & Es & Hd & Hs1 & Ho1 & Hc).
  unfold main_try. fold stats. rewrite (bind_ok _ _ _ _ _ Es).
  destruct (arg_json args) eqn:Ej.
  - assert (Ho' : open_error w1 "report.json" = None)
      by (rewrite Ho1; exact (Hj eq_refl)).
    destruct (with_open_w_unlimited "report.json" (json_chunks stats) w1
                Ho' Hs1) as (w2 & Ew & Hd2 & Hs2 & Hc2 & Ho2).
    exists (mkWorld (disk w2) (open_error w2) (space w2)
              (console w2 ++ [json_saved_line "report.json"])%list).
    split; [| split].
    + unfold bind at 1. unfold save_json_report.
      rewrite (bind_ok _ _ _ _ _ Ew). reflexivity.
    + cbn [console]. rewrite Hc2, Hc. unfold w0. cbn [console].
      rewrite <- !app_assoc. reflexivity.
    + exact Hd2.
  - exists w1. split; [reflexivity |]. split; [| exact Hd].
    rewrite Hc. unfold w0. cbn [console].
    rewrite app_nil_r, <- app_assoc. reflexivity.
Qed.

(** A device with room for the text report but not for the JSON report:
    the text report is written and announced on the console, the JSON
    report is begun and fails, [report.json] is left with a proper prefix
    of the JSON text, and [main] prints the error and returns 1.  How long
    the prefix is depends on the room the text report has left. *)
Theorem device_full_in_json_report
  (args : arguments) (start : option node) (now : string) (w : world)
  (k : nat) :
  float_range start ->
  ascii_paths start ->
  let stats := get_repo_stats start now in
  arg_json args = true ->
  open_error w (arg_output args) = None ->
  open_error w "report.json" = None ->
  space w = Some k ->
  (String.length (report_text stats) <= k)%nat ->
  (k < String.length (join (json_chunks stats)))%nat ->
  exists w' m,
    main json_chunks args start now w = (w', inl 1) /\
    (m < String.length (join (json_chunks stats)))%nat /\
    disk_get w' "report.json"
    = Some (substring 0 m (join (json_chunks stats))) /\
    console w'
    = (console w ++ start_line args :: saved_lines stats (arg_output args)
       ++ [unexpected_line no_space])%list.
Proof.
  intros _ _ stats Ej Ho Hoj Hs Hfit Hsmall.
  set (room := (k - String.length (report_text stats))%nat).
  assert (Hroom : (room < String.length (join (json_chunks stats)))%nat)
    by (unfold room; lia).
  rewrite main_unfold. cbv zeta. set (w0 := mkWorld _ _ _ _).
  destruct (with_open_w_fits (arg_output args) (report_chunks stats) w0 k
              Ho Hs Hfit) as (w1 & Ew & Hd & Hs1 & Hc1 & Ho1).
  set (w2 := mkWorld (disk w1) (open_error w1) (space w1)
               (console w1 ++ saved_lines stats (arg_output args))%list).
  assert (Es : save_report stats (arg_output args) w0 = (w2, inl tt)).
  { unfold save_report. rewrite (bind_ok _ _ _ _ _ Ew).
    unfold bind, print, w2, saved_lines.
    cbn [disk open_error space console]. rewrite <- !app_assoc.
    reflexivity. }
  assert (Ho2 : open_error w2 "report.json" = None)
    by (unfold w2; cbn [open_error]; rewrite Ho1; exact Hoj).
  assert (Hs2 : space w2 = Some room) by exact Hs1.
  destruct (with_open_w_full "report.json" (json_chunks stats) w2 room
              Ho2 Hs2 Hroom) as (w3 & Ej3 & Hd3 & Hc3 & Ho3).
  assert (Et : main_try json_chunks args start now w0 = (w3, inr no_space)).
  { unfold main_try. fold stats. rewrite (bind_ok _ _ _ _ _ Es), Ej.
    unfold bind at 1. unfold save_json_report.
    rewrite (bind_raise _ _ _ _ _ Ej3). reflexivity. }
  rewrite Et, main_except_result.
  eexists. exists room. split; [reflexivity |]. split; [exact Hroom |]. split.
  - transitivity (disk_get w3 "report.json"); [reflexivity | exact Hd3].
  - cbn [console]. rewrite Hc3. unfold w2. cbn [console]. rewrite Hc1. unfold w0.
    cbn [console]. rewrite <- !app_assoc. reflexivity.
Qed.

End ReportsOfARun.

Lemma unhindered_run_writes_both_reports_witness :
  exists w',
    main (fun _ => ["{}"]) (mkArgs "." "report.log" true) (Some scenario)
      "2024-01-01 00:00:00" fresh = (w', inl 0) /\
    console w'
    = (console fresh
       ++ start_line (mkArgs "." "report.log" true)
          :: saved_lines
               (get_repo_stats (Some scenario) "2024-01-01 00:00:00")
               "report.log"
          ++ [json_saved_line "report.json"])%list /\
    disk_get w' "report.json" = Some "{}".
Proof.
  apply (unhindered_run_writes_both_reports (fun _ => ["{}"])
           (mkArgs "." "report.log" true) (Some scenario)
           "2024-01-01 00:00:00" fresh).
  - vm_compute. reflexivity.
  - reflexivity.
  - reflexivity.
  - intros _. reflexivity.
  - reflexivity.
Defined.

Lemma device_full_in_json_report_witness :
  exists w' m,
    main (fun _ => [Str.repeat "x" 2000]) (mkArgs "." "report.log" true)
      (Some scenario) "2024-01-01 00:00:00" small_device = (w', inl 1) /\
    (m < String.length (join [Str.repeat "x" 2000]))%nat /\
    disk_get w' "report.json"
    = Some (substring 0 m (join [Str.repeat "x" 2000])) /\
    console w'
    = (console small_device
       ++ start_line (mkArgs "." "report.log" true)
          :: saved_lines
               (get_repo_stats (Some scenario) "2024-01-01 00:00:00")
               "report.log"
          ++ [unexpected_line no_space])%list.
Proof.
  apply (device_full_in_json_report (fun _ => [Str.repeat "x" 2000])
           (mkArgs "." "report.log" true) (Some scenario)
           "2024-01-01 00:00:00" small_device 1500%nat).
  - vm_compute. reflexivity.
  - reflexivity.
  - reflexivity.
  - reflexivity.
  - reflexivity.
  - reflexivity.
  - apply Nat.leb_le. vm_compute. reflexivity.
  - apply Nat.ltb_lt. vm_compute. reflexivity.
Defined.
